(** * darksky_soccer: match data enriched with rain observations

    A shallow embedding of [darksky_soccer.py].  Data frames are tables of
    dynamically typed cells, the sqlite files and the Darksky service live
    in an explicit world that every effectful function threads, and Python
    exceptions are values of type [exn] that abort the rest of a function
    while keeping the changes already made to the world.

    Integers are [Z]; where the code computes on machine integers, the
    sums of the goal columns, the wrap-around of int64 in the frame and
    the overflow checks of SQLite are written out, and a count of rows
    is taken to be below [2^63].  Idealisations, all stated where they
    are made: the quotient behind [rain_win_pct] is an exact rational
    and the two rounding functions work on rationals; the iteration
    order of a Python [set] is the order of [elements] of a [gset]; a
    table carries no declared column types. *)

From Stdlib Require Import ZArith QArith Qround Lqa String Ascii List Permutation Sorted Lia.
From stdpp Require Import gmap strings list sorting.

Local Open Scope string_scope.
Local Open Scope list_scope.
Local Open Scope Z_scope.

(** ** Cells, tables, exceptions *)

Inductive value :=
| VNone
| VInt (z : Z)
| VStr (s : string)
| VBool (b : bool).

#[global] Instance value_eq_dec : EqDecision value.
Proof. solve_decision. Defined.

Definition value_enc (v : value) : unit + Z + string + bool :=
  match v with
  | VNone => inl (inl (inl tt))
  | VInt z => inl (inl (inr z))
  | VStr s => inl (inr s)
  | VBool b => inr b
  end.

Definition value_dec (x : unit + Z + string + bool) : value :=
  match x with
  | inl (inl (inl _)) => VNone
  | inl (inl (inr z)) => VInt z
  | inl (inr s) => VStr s
  | inr b => VBool b
  end.

#[global] Instance value_countable : Countable value.
Proof.
  refine (inj_countable' value_enc value_dec _).
  intros []; reflexivity.
Defined.

(** A pandas DataFrame: column labels and rows of cells. *)
Record DataFrame := mkDataFrame {
  columns : list string;
  rows : list (list value)
}.

#[global] Instance DataFrame_eq_dec : EqDecision DataFrame.
Proof. solve_decision. Defined.

Inductive exn :=
| KeyError (k : string)
| IndexError
| TypeError
| AttributeError
| ValueError
| ConnectionError
| OperationalError (msg : string).

Inductive result (A : Type) :=
| Ok (a : A)
| Raise (e : exn).
Arguments Ok {A} a.
Arguments Raise {A} e.

(** JSON as returned by [requests.get(...).json()]. *)
#[local] Unset Elimination Schemes.
Inductive json :=
| JNull
| JBool (b : bool)
| JNum (z : Z)
| JStr (s : string)
| JArr (l : list json)
| JObj (l : list (string * json)).
#[local] Set Elimination Schemes.

(** ** The world: sqlite files, the remote service, the requests sent *)

Record World := mkWorld {
  files : gmap string (gmap string DataFrame);
  darksky : string -> option json;
  requests : list string
}.

Definition M (A : Type) : Type := World -> World * result A.

Definition ret {A} (a : A) : M A := fun w => (w, Ok a).
Definition raise {A} (e : exn) : M A := fun w => (w, Raise e).
Definition bind {A B} (m : M A) (k : A -> M B) : M B :=
  fun w => match m w with
           | (w', Ok a) => k a w'
           | (w', Raise e) => (w', Raise e)
           end.
Definition lift {A} (r : result A) : M A := fun w => (w, r).

Notation "x <- m ;; k" := (bind m (fun x => k))
  (at level 100, m at next level, right associativity).

(** ** Column access *)

Fixpoint index_of (c : string) (cols : list string) : option nat :=
  match cols with
  | [] => None
  | c' :: cols' => if String.eqb c c' then Some O
                   else option_map S (index_of c cols')
  end.

(** [df[c]]: the cells of column [c], [KeyError] when there is none.  A
    row too short for the column reads as [None]. *)
Definition getitem (df : DataFrame) (c : string) : result (list value) :=
  match index_of c (columns df) with
  | None => Raise (KeyError c)
  | Some i => Ok (map (fun r => nth i r VNone) (rows df))
  end.

(** ** get_season_data *)

(** [sqlite3.connect]: a path with no file gets a fresh empty database.
    The connection is the path it was opened on. *)
Definition connect (database : string) : M string :=
  fun w => match files w !! database with
           | Some _ => (w, Ok database)
           | None => (mkWorld (<[database := ∅]> (files w)) (darksky w) (requests w),
                      Ok database)
           end.

(** Run a read-only query on a connection. *)
Definition execute_query {A} (conn : string)
  (q : gmap string DataFrame -> result A) : M A :=
  fun w => (w, q (default ∅ (files w !! conn))).

(** The [WHERE] clause on one row.  A table of the model carries no
    declared column types, so the comparison is the one SQLite makes
    for a [Season] column that stores integers (the table this program
    reads declares it so): an integer cell matches when it is equal to
    the season.  In a column declared TEXT the cells are text, and
    SQLite would turn the season into text before it compares; the
    statements about the selected rows are about tables whose [Season]
    cells are integers, [integer_seasons]. *)
Definition season_row (cols : list string) (season : Z) (r : list value) : bool :=
  match index_of "Season" cols, index_of "Div" cols with
  | Some i, Some j =>
      bool_decide (nth i r VNone = VInt season)
      && (bool_decide (nth j r VNone = VStr "D1")
          || bool_decide (nth j r VNone = VStr "E0"))
  | _, _ => false
  end.

(** The query [SELECT * FROM Matches WHERE Season = season AND Div in
    ('D1', 'E0')]. *)
Definition select_season (db : gmap string DataFrame) (season : Z)
  : result DataFrame :=
  match db !! "Matches" with
  | None => Raise (OperationalError "no such table: Matches")
  | Some t =>
      match index_of "Season" (columns t), index_of "Div" (columns t) with
      | Some _, Some _ =>
          Ok (mkDataFrame (columns t) (filter (fun r => season_row (columns t) season r = true) (rows t)))
      | None, _ => Raise (OperationalError "no such column: Season")
      | _, None => Raise (OperationalError "no such column: Div")
      end
  end.

(** [pd.DataFrame(c.fetchall())] followed by [df.columns = ...]: a frame
    built from no rows has no columns, and giving it the cursor's column
    names is a length mismatch. *)
Definition frame_of_cursor (t : DataFrame) : result DataFrame :=
  match rows t, columns t with
  | [], _ :: _ => Raise ValueError
  | _, _ => Ok t
  end.

Definition get_season_data (database : string) (season : Z) : M DataFrame :=
  conn <- connect database ;;
  t <- execute_query conn (fun db => select_season db season) ;;
  lift (frame_of_cursor t).

(** ** get_weather_data *)

Definition lat_default : string := "52.5200".
Definition long_default : string := "13.4050".

Definition forecast_url (password lat long time : string) : string :=
  "https://api.darksky.net/forecast/" +:+ password +:+ "/" +:+ lat +:+ ","
    +:+ long +:+ ", " +:+ time.

(** [requests.get(url).json()]: the request is sent (and recorded), the
    service answers with a JSON document or the call raises. *)
Definition requests_get_json (url : string) : M json :=
  fun w =>
    let w' := mkWorld (files w) (darksky w) (requests w ++ [url]) in
    match darksky w url with
    | Some j => (w', Ok j)
    | None => (w', Raise ConnectionError)
    end.

Fixpoint assoc (k : string) (l : list (string * json)) : option json :=
  match l with
  | [] => None
  | (k', v) :: l' => if String.eqb k k' then Some v else assoc k l'
  end.

(** [j[k]] on a JSON object. *)
Definition json_key (j : json) (k : string) : result json :=
  match j with
  | JObj l => match assoc k l with
              | Some v => Ok v
              | None => Raise (KeyError k)
              end
  | _ => Raise TypeError
  end.

(** [j[0]] on a JSON array. *)
Definition json_first (j : json) : result json :=
  match j with
  | JArr (x :: _) => Ok x
  | JArr [] => Raise IndexError
  | JObj _ => Raise (KeyError "0")
  | _ => Raise TypeError
  end.

(** [j.get(k)]: only objects have [get]; a missing key gives [None]. *)
Definition json_get (j : json) (k : string) : result (option json) :=
  match j with
  | JObj l => Ok (assoc k l)
  | _ => Raise AttributeError
  end.

Definition is_rain (icon : option json) : bool :=
  match icon with
  | Some (JStr s) => String.eqb s "rain"
  | _ => false
  end.

Definition get_weather_data (date : value) (password lat long : string)
  : M (value * bool) :=
  match date with
  | VStr d =>
      let time := d +:+ "T00:00:00" in
      result <- requests_get_json (forecast_url password lat long time) ;;
      daily <- lift (json_key result "daily") ;;
      data <- lift (json_key daily "data") ;;
      day <- lift (json_first data) ;;
      icon <- lift (json_get day "icon") ;;
      ret (date, is_rain icon)
  | _ => raise TypeError
  end.

(** ** rain_dates *)

(** Iteration over [set(unique_dates)]: each distinct element once, in
    an order that does not depend on the order of the list. *)
Definition set_iter (l : list value) : list value :=
  elements (list_to_set l : gset value).

Fixpoint rain_loop (dates : list value) (password : string)
  (data : list (list value)) : M (list (list value)) :=
  match dates with
  | [] => ret data
  | date :: dates' =>
      dr <- get_weather_data date password lat_default long_default ;;
      rain_loop dates' password (data ++ [[fst dr; VBool (snd dr)]])
  end.

(** [pd.DataFrame(data)] for a list of [{'Date': .., 'rain': ..}]: an
    empty list gives a frame without columns. *)
Definition frame_of_records (data : list (list value)) : DataFrame :=
  match data with
  | [] => mkDataFrame [] []
  | _ => mkDataFrame ["Date"; "rain"] data
  end.

Definition rain_dates (unique_dates : list value) (password : string)
  : M DataFrame :=
  data <- rain_loop (set_iter unique_dates) password [] ;;
  ret (frame_of_records data).

(** ** match_rain_data *)

(** [Series.unique()]: distinct cells in order of first appearance. *)
Fixpoint unique_from (seen : list value) (l : list value) : list value :=
  match l with
  | [] => []
  | x :: l' => if bool_decide (x ∈ seen) then unique_from seen l'
               else x :: unique_from (x :: seen) l'
  end.

Definition unique (l : list value) : list value := unique_from [] l.

(** The slice [l[:n]]: a negative [n] counts from the end. *)
Definition slice_to {A} (n : Z) (l : list A) : list A :=
  if (n <? 0)%Z then take (Z.to_nat (Z.of_nat (length l) + n)) l
  else take (Z.to_nat n) l.

(** [pd.merge(left, right, on=on)]: inner join on one key column; rows
    come in the order of the left frame, the key column is kept once, and
    the other labels that both frames carry get the suffixes [_x], [_y]. *)
Definition merge_columns (lcols rcols : list string) (on : string) (j : nat)
  : list string :=
  map (fun c => if String.eqb c on then c
                else if bool_decide (c ∈ rcols) then c +:+ "_x" else c) lcols
  ++ map (fun c => if bool_decide (c ∈ lcols) then c +:+ "_y" else c)
         (delete j rcols).

Definition merge_rows (i j : nat) (lrows rrows : list (list value))
  : list (list value) :=
  flat_map (fun l =>
    flat_map (fun r =>
      if bool_decide (nth i l VNone = nth j r VNone)
      then [l ++ delete j r] else []) rrows) lrows.

Definition merge (left right : DataFrame) (on : string) : result DataFrame :=
  match index_of on (columns left), index_of on (columns right) with
  | Some i, Some j =>
      Ok (mkDataFrame (merge_columns (columns left) (columns right) on j)
                      (merge_rows i j (rows left) (rows right)))
  | _, _ => Raise (KeyError on)
  end.

Definition limit_api_calls_default : Z := -1.

Definition match_rain_data (database : string) (season : Z)
  (password : string) (limit_api_calls : Z) : M DataFrame :=
  match_data <- get_season_data "database.sqlite" season ;;
  dates <- lift (getitem match_data "Date") ;;
  let unique_match_dates := slice_to limit_api_calls (unique dates) in
  rain_days <- rain_dates unique_match_dates password ;;
  lift (merge match_data rain_days "Date").

(** ** Enriched match rows *)

(** The columns the two aggregators read, with the types they have in an
    enriched match table. *)
Record Match := mkMatch {
  Div : string;
  Season : Z;
  HomeTeam : string;
  AwayTeam : string;
  FTHG : Z;
  FTAG : Z;
  rain : bool
}.

Definition rbind {A B} (r : result A) (k : A -> result B) : result B :=
  match r with
  | Ok a => k a
  | Raise e => Raise e
  end.

Notation "x <-? r ;; k" := (rbind r (fun x => k))
  (at level 100, r at next level, right associativity).

Definition column_index (missing : string -> exn) (c : string)
  (cols : list string) : result nat :=
  match index_of c cols with
  | Some i => Ok i
  | None => Raise (missing c)
  end.

Definition as_int (v : value) : result Z :=
  match v with VInt z => Ok z | _ => Raise TypeError end.
Definition as_str (v : value) : result string :=
  match v with VStr s => Ok s | _ => Raise TypeError end.
Definition as_bool (v : value) : result bool :=
  match v with VBool b => Ok b | _ => Raise TypeError end.

Fixpoint mapM {A B} (f : A -> result B) (l : list A) : result (list B) :=
  match l with
  | [] => Ok []
  | x :: l' => y <-? f x ;; ys <-? mapM f l' ;; Ok (y :: ys)
  end.

(** Reading a frame as enriched match rows, the columns first and then
    the cells, as a query does that resolves its column names before it
    reads a row.  A column that is not there is reported through
    [missing].  A cell of another type than the column's is outside what
    either aggregator is written for: the view stops with [TypeError]
    there, and no theorem below speaks about such frames. *)
Definition to_matches (missing : string -> exn) (df : DataFrame)
  : result (list Match) :=
  iHG <-? column_index missing "FTHG" (columns df) ;;
  iAG <-? column_index missing "FTAG" (columns df) ;;
  iR <-? column_index missing "rain" (columns df) ;;
  iH <-? column_index missing "HomeTeam" (columns df) ;;
  iA <-? column_index missing "AwayTeam" (columns df) ;;
  iS <-? column_index missing "Season" (columns df) ;;
  iD <-? column_index missing "Div" (columns df) ;;
  mapM (fun r =>
    d <-? as_str (nth iD r VNone) ;;
    s <-? as_int (nth iS r VNone) ;;
    h <-? as_str (nth iH r VNone) ;;
    a <-? as_str (nth iA r VNone) ;;
    hg <-? as_int (nth iHG r VNone) ;;
    ag <-? as_int (nth iAG r VNone) ;;
    rn <-? as_bool (nth iR r VNone) ;;
    Ok (mkMatch d s h a hg ag rn)) (rows df).

(** [frame[['Season', 'Div']]]: selecting by a list of labels names the
    missing labels in the message of its [KeyError] (the wording is that
    of pandas 1 and 2). *)
Definition select_Season_Div (cols : list string) : result (nat * nat) :=
  match index_of "Season" cols, index_of "Div" cols with
  | Some iS, Some iD => Ok (iS, iD)
  | None, Some _ => Raise (KeyError "['Season'] not in index")
  | Some _, None => Raise (KeyError "['Div'] not in index")
  | None, None =>
      Raise (KeyError
        "None of [Index(['Season', 'Div'], dtype='object')] are in the [columns]")
  end.

(** The in-memory aggregator touches the frame statement by statement:
    the goal columns and their cells (the comparison of line 92), then
    [rain] (line 93), the team columns (the two [groupby]), and last
    [Season] and [Div] (line 115).  A missing column is a [KeyError] at
    its own statement, after the statements before it have read their
    cells.  As in [to_matches], a cell of another type than the column's
    stops the view with [TypeError]; what pandas does with such a cell
    depends on the cell, and no theorem below speaks about such
    frames. *)
Definition pandas_matches (df : DataFrame) : result (list Match) :=
  iHG <-? column_index KeyError "FTHG" (columns df) ;;
  iAG <-? column_index KeyError "FTAG" (columns df) ;;
  _ <-? mapM (fun r => _ <-? as_int (nth iHG r VNone) ;;
                       as_int (nth iAG r VNone)) (rows df) ;;
  iR <-? column_index KeyError "rain" (columns df) ;;
  _ <-? mapM (fun r => as_bool (nth iR r VNone)) (rows df) ;;
  iH <-? column_index KeyError "HomeTeam" (columns df) ;;
  _ <-? mapM (fun r => as_str (nth iH r VNone)) (rows df) ;;
  iA <-? column_index KeyError "AwayTeam" (columns df) ;;
  _ <-? mapM (fun r => as_str (nth iA r VNone)) (rows df) ;;
  sd <-? select_Season_Div (columns df) ;;
  mapM (fun r =>
    d <-? as_str (nth sd.2 r VNone) ;;
    s <-? as_int (nth sd.1 r VNone) ;;
    h <-? as_str (nth iH r VNone) ;;
    a <-? as_str (nth iA r VNone) ;;
    hg <-? as_int (nth iHG r VNone) ;;
    ag <-? as_int (nth iAG r VNone) ;;
    rn <-? as_bool (nth iR r VNone) ;;
    Ok (mkMatch d s h a hg ag rn)) (rows df).

(** ** Machine integers

    The goal columns are int64 in the frame and INTEGER in the database.
    pandas adds them with wrap-around; SQLite checks every addition. *)
Definition in_int64 (z : Z) : bool :=
  (- 2 ^ 63 <=? z)%Z && (z <? 2 ^ 63)%Z.

Definition wrap64 (z : Z) : Z := (z + 2 ^ 63) mod 2 ^ 64 - 2 ^ 63.

(** ** Floating-point results

    The quotient of two integer columns and its rounding.  The quotient
    is kept as an exact rational, so the last-bit error of a binary64
    division is not represented; the special values are. *)
Inductive float :=
| Finite (q : Q)
| Infinity (negative : bool)
| NaN.

(** Division of two integer Series: [x / 0] is infinite, [0 / 0] is NaN. *)
Definition series_div (p q : Z) : float :=
  if (q =? 0)%Z then
    if (p =? 0)%Z then NaN else Infinity (p <? 0)%Z
  else Finite (Qred (Qmake p 1 / Qmake q 1)).

(** Round to the nearest integer, ties to the even one ([np.rint]). *)
Definition rint (x : Q) : Z :=
  let n := Qnum x in
  let d := Zpos (Qden x) in
  let f := n / d in
  match 2 * (n mod d) ?= d with
  | Lt => f
  | Gt => f + 1
  | Eq => if Z.even f then f else f + 1
  end.

Definition pow10 (ndigits : nat) : positive := Z.to_pos (10 ^ Z.of_nat ndigits).

(** [round(series, ndigits)], that is [np.round]: scale, [rint], unscale. *)
Definition np_round (x : float) (ndigits : nat) : float :=
  match x with
  | Finite q =>
      Finite (Qred (Qmake (rint (q * Qmake (Zpos (pow10 ndigits)) 1)) (pow10 ndigits)))
  | _ => x
  end.

(** ** Grouping and index joins *)

(** A stable sort (insertion into a sorted list). *)
Fixpoint insert_sorted {A} (leb : A -> A -> bool) (x : A) (l : list A) : list A :=
  match l with
  | [] => [x]
  | y :: l' => if leb x y then x :: l else y :: insert_sorted leb x l'
  end.

Fixpoint sort_by {A} (leb : A -> A -> bool) (l : list A) : list A :=
  match l with
  | [] => []
  | x :: l' => insert_sorted leb x (sort_by leb l')
  end.

(** [df.groupby(key)]: one group per distinct key, keys ascending, each
    group holding its rows in frame order. *)
Definition group_keys (key : Match -> string) (df : list Match) : list string :=
  sort_by String.leb (remove_dups (map key df)).

Definition groupby (key : Match -> string) (df : list Match)
  : list (string * list Match) :=
  map (fun t => (t, filter (fun m => key m = t) df)) (group_keys key df).

(** The exact sum of [f] over rows.  Over a Boolean column it is the
    number of rows that hold [True]; the sums the code takes over the
    goal columns are machine sums, [int64_sum] and [sql_sum] below. *)
Definition sum_of (f : Match -> Z) (g : list Match) : Z :=
  foldr (fun m acc => f m + acc) 0 g.

Definition max_of {A} (leb : A -> A -> bool) (l : list A) : option A :=
  match l with
  | [] => None
  | x :: l' => Some (foldl (fun acc y => if leb acc y then y else acc) x l')
  end.

(** [pd.merge(l, r, left_index=True, right_index=True)]: inner join of
    two frames on their index. *)
Definition merge_index {A B} (l : list (string * A)) (r : list (string * B))
  : list (string * (A * B)) :=
  flat_map (fun la =>
    flat_map (fun rb =>
      if bool_decide (la.1 = rb.1) then [(la.1, (la.2, rb.2))] else []) r) l.

(** ** calculate_aggregate_stats_pandas *)

Module Pd.
Record t := mk {
  team_name : string;
  wins : Z;
  goals : Z;
  rain_win_pct : float;
  season : Z;
  division : string
}.
End Pd.

Definition home_win (m : Match) : bool := (FTHG m >? FTAG m)%Z.
Definition rain_home_win (m : Match) : bool := home_win m && rain m.
Definition away_win (m : Match) : bool := (FTAG m >? FTHG m)%Z.
Definition rain_away_win (m : Match) : bool := away_win m && rain m.

Record HomeStats := mkHomeStats {
  hs_FTHG : Z; hs_home_win : Z; hs_rain_home_win : Z; hs_rain : Z
}.

Record AwayStats := mkAwayStats {
  as_FTAG : Z; as_away_win : Z; as_rain_away_win : Z; as_rain : Z
}.

(** The sum of an int64 column over a group: the additions wrap around. *)
Definition int64_sum (f : Match -> Z) (g : list Match) : Z :=
  wrap64 (sum_of f g).

(** [home_df.groupby(['HomeTeam']).sum()[['FTHG', 'home_win',
    'rain_home_win', 'rain']]].  A sum over a Boolean column counts the
    rows that hold [True]; a frame has far fewer than [2^63] rows, so a
    count is the exact number. *)
Definition home_stats (df : list Match) : list (string * HomeStats) :=
  map (fun tg => (tg.1,
    mkHomeStats (int64_sum FTHG tg.2)
                (sum_of (fun m => Z.b2z (home_win m)) tg.2)
                (sum_of (fun m => Z.b2z (rain_home_win m)) tg.2)
                (sum_of (fun m => Z.b2z (rain m)) tg.2)))
      (groupby HomeTeam df).

Definition away_stats (df : list Match) : list (string * AwayStats) :=
  map (fun tg => (tg.1,
    mkAwayStats (int64_sum FTAG tg.2)
                (sum_of (fun m => Z.b2z (away_win m)) tg.2)
                (sum_of (fun m => Z.b2z (rain_away_win m)) tg.2)
                (sum_of (fun m => Z.b2z (rain m)) tg.2)))
      (groupby AwayTeam df).

(** [df.groupby('HomeTeam').max()[['Season', 'Div']]]. *)
Definition home_max (df : list Match) : list (string * (Z * string)) :=
  omap (fun tg =>
    match max_of Z.leb (map Season tg.2), max_of String.leb (map Div tg.2) with
    | Some s, Some d => Some (tg.1, (s, d))
    | _, _ => None
    end) (groupby HomeTeam df).

(** The columns [wins], [goals], [rain_win_pct] of [df_]; [rain_x] is the
    home frame's [rain], [rain_y] the away frame's.  [goals] adds two
    int64 columns, with wrap-around; [wins] adds two counts. *)
Definition agg_row (ha : HomeStats * AwayStats) : Z * Z * float :=
  let wins := hs_home_win ha.1 + as_away_win ha.2 in
  let goals := wrap64 (hs_FTHG ha.1 + as_FTAG ha.2) in
  let rain_win_pct :=
    np_round (series_div (hs_rain_home_win ha.1 + as_rain_away_win ha.2)
                         (as_rain ha.2 + hs_rain ha.1)) 3 in
  (wins, goals, rain_win_pct).

Definition pandas_stats (df : list Match) : list Pd.t :=
  let df_ := merge_index (home_stats df) (away_stats df) in
  let agg := map (fun r => (r.1, agg_row r.2)) df_ in
  let final_df := merge_index agg (home_max df) in
  map (fun r => Pd.mk r.1 r.2.1.1.1 r.2.1.1.2 r.2.1.2 r.2.2.1 r.2.2.2) final_df.

Definition calculate_aggregate_stats_pandas (df : DataFrame)
  : result (list Pd.t) :=
  ms <-? pandas_matches df ;;
  Ok (pandas_stats ms).

(** ** calculate_aggregate_stats_sqlite *)

(** A number in SQLite: an INTEGER (int64) or a REAL (binary64).  The
    only REAL values the query computes in the column [GF] are sums of
    two int64 taken as doubles, and those are whole numbers: [SReal z]
    is the double whose value is [z]. *)
Inductive sqlnum :=
  | SInt (z : Z)
  | SReal (z : Z).

Definition sqlnum_value (x : sqlnum) : Z :=
  match x with
  | SInt z => z
  | SReal z => z
  end.

(** The double nearest to an integer: 53 significant bits, ties to even. *)
Definition to_double (z : Z) : Z :=
  let e := Z.log2 (Z.abs z) - 52 in
  if (e <=? 0)%Z then z else 2 ^ e * rint (Qmake z (Z.to_pos (2 ^ e))).

(** [a + b] on two INTEGER values: the int64 sum, or, when that
    overflows, the sum of the two operands as doubles, a REAL. *)
Definition sql_add (a b : Z) : sqlnum :=
  if in_int64 (a + b) then SInt (a + b)
  else SReal (to_double (to_double a + to_double b)).

(** [SUM] over the INTEGER values of a group, row after row.  Once the
    running int64 sum overflows, the aggregate fails with
    'integer overflow', whatever the rows after it hold.  SQLite does
    not promise the order in which it visits the rows of a group; the
    model takes them in the order of the table.  The order bears on the
    outcome only when a group holds values of both signs: the statements
    about a failing sum are about tables without negative goals. *)
Fixpoint sql_sum_from (acc : Z) (xs : list Z) : result Z :=
  match xs with
  | [] => Ok acc
  | x :: xs' =>
      if in_int64 (acc + x) then sql_sum_from (acc + x) xs'
      else Raise (OperationalError "integer overflow")
  end.

Definition sql_sum (xs : list Z) : result Z := sql_sum_from 0 xs.

Module Sq.
Record t := mk {
  Club : string;
  Div : string;
  Season : Z;
  W : Z;
  GF : sqlnum;
  rain_win_pct : option Q
}.
End Sq.

(** Real division in SQLite: a zero divisor gives NULL. *)
Definition sql_div (p q : Z) : option Q :=
  if (q =? 0)%Z then None else Some (Qred (Qmake p 1 / Qmake q 1)).

(** SQLite's [round(x, n)]: to the nearest multiple of [10^-n], ties away
    from zero; NULL stays NULL. *)
Definition round_half_away (x : Q) : Z :=
  if Qle_bool 0 x then Qfloor (x + Qmake 1 2) else - Qfloor (- x + Qmake 1 2).

Definition sql_round (x : option Q) (n : nat) : option Q :=
  match x with
  | Some q =>
      Some (Qred (Qmake (round_half_away (q * Qmake (Zpos (pow10 n)) 1)) (pow10 n)))
  | None => None
  end.

(** [GROUP BY key]: one group per distinct key. *)
Definition sql_group_by (key : Match -> string) (t : list Match)
  : list (list Match) :=
  map (fun k => filter (fun m => key m = k) t) (remove_dups (map key t)).

Record HomeAgg := mkHomeAgg {
  ha_Div : string;
  ha_HomeTeam : string;
  h_win : Z;
  h_draw : Z;
  h_loss : Z;
  h_rain_win : Z;
  h_rain_games : Z;
  h_goals_for : Z;
  ha_max_Div : string;
  ha_max_Season : Z
}.

Record AwayAgg := mkAwayAgg {
  aa_AwayTeam : string;
  a_win : Z;
  a_rain_win : Z;
  a_rain_games : Z;
  a_goals_for : Z
}.

Definition case_when (b : bool) : Z := if b then 1 else 0.

Section AggQuery.

(** The first subquery selects the bare columns [Div] and [HomeTeam]
    next to its aggregates.  SQLite reads them from one row of the
    group, and with two [MAX] aggregates in the select list it does not
    say from which.  [HomeTeam] is the same on every row of the group;
    for [Div] the choice is the parameter [bare_Div]. *)
Variable bare_Div : list Match -> string.

(** One row of the first subquery, from one group.  The sums of the
    [CASE] expressions and of [rain] count rows; [SUM(FTHG)] adds goals
    and can overflow. *)
Definition home_agg (g : list Match) : option (result HomeAgg) :=
  match g, max_of String.leb (map Div g), max_of Z.leb (map Season g) with
  | m :: _, Some d, Some s =>
      Some (goals_for <-? sql_sum (map FTHG g) ;;
            Ok (mkHomeAgg
              (bare_Div g)
              (HomeTeam m)
              (sum_of (fun m => case_when (FTHG m >? FTAG m)%Z) g)
              (sum_of (fun m => case_when (FTHG m =? FTAG m)%Z) g)
              (sum_of (fun m => case_when (FTHG m <? FTAG m)%Z) g)
              (sum_of (fun m => case_when ((FTHG m >? FTAG m)%Z
                                           && (Z.b2z (rain m) =? 1)%Z)) g)
              (sum_of (fun m => Z.b2z (rain m)) g)
              goals_for
              d s))
  | _, _, _ => None
  end.

Definition away_agg (g : list Match) : option (result AwayAgg) :=
  match g with
  | m :: _ =>
      Some (goals_for <-? sql_sum (map FTAG g) ;;
            Ok (mkAwayAgg
              (AwayTeam m)
              (sum_of (fun m => case_when (FTAG m >? FTHG m)%Z) g)
              (sum_of (fun m => case_when ((FTAG m >? FTHG m)%Z
                                           && (Z.b2z (rain m) =? 1)%Z)) g)
              (sum_of (fun m => Z.b2z (rain m)) g)
              goals_for))
  | [] => None
  end.

(** The two subqueries, each [GROUP BY] team [ORDER BY] team.  A
    subquery fails when the aggregate of one of its groups fails. *)
Definition home_subquery (t : list Match) : result (list HomeAgg) :=
  groups <-? mapM (fun r => r) (omap home_agg (sql_group_by HomeTeam t)) ;;
  Ok (sort_by (fun x y => String.leb (ha_HomeTeam x) (ha_HomeTeam y)) groups).

Definition away_subquery (t : list Match) : result (list AwayAgg) :=
  groups <-? mapM (fun r => r) (omap away_agg (sql_group_by AwayTeam t)) ;;
  Ok (sort_by (fun x y => String.leb (aa_AwayTeam x) (aa_AwayTeam y)) groups).

(** The outer [SELECT] on one joined row.  The first subquery has two
    columns called [Div]; the outer [Div] is the first, the bare one. *)
Definition select_row (h : HomeAgg) (a : AwayAgg) : Sq.t :=
  Sq.mk (ha_HomeTeam h)
        (ha_Div h)
        (ha_max_Season h)
        (h_win h + a_win a)
        (sql_add (h_goals_for h) (a_goals_for a))
        (sql_round (sql_div (a_rain_win a + h_rain_win h)
                            (h_rain_games h + a_rain_games a)) 2).

(** The join of the subqueries [ON HomeTeam == AwayTeam], [ORDER BY GF
    DESC]; INTEGER and REAL values of [GF] compare by their value.  Rows
    with equal [GF] keep the order of the join, which SQLite does not
    promise. *)
Definition join_rows (hs : list HomeAgg) (as_ : list AwayAgg) : list Sq.t :=
  sort_by (fun x y => (sqlnum_value (Sq.GF y) <=? sqlnum_value (Sq.GF x))%Z)
    (flat_map (fun h =>
       flat_map (fun a =>
         if bool_decide (ha_HomeTeam h = aa_AwayTeam a)
         then [select_row h a] else []) as_)
       hs).

(** [agg_query].  Both subqueries raise the same error when a sum
    overflows, so which of them SQLite runs first does not show. *)
Definition agg_query (t : list Match) : result (list Sq.t) :=
  hs <-? home_subquery t ;;
  as_ <-? away_subquery t ;;
  Ok (join_rows hs as_).

(** SQLite's complaint about a column the query names and the table does
    not have.  When several are missing, which one SQLite names first is
    not modelled: the view reports the first in its own order. *)
Definition no_such_column (c : string) : exn :=
  OperationalError ("no such column: " +:+ c).

Definition run_agg_query (db : gmap string DataFrame) : result (list Sq.t) :=
  match db !! "temp_rain_stats" with
  | None => Raise (OperationalError "no such table: temp_rain_stats")
  | Some t => ms <-? to_matches no_such_column t ;; agg_query ms
  end.

(** [df.to_sql(name, con=conn, if_exists='replace')].  The index column
    that pandas writes along is left out: the query never reads it. *)
Definition to_sql (df : DataFrame) (name conn : string) : M unit :=
  fun w =>
    (mkWorld (<[conn := <[name := df]> (default ∅ (files w !! conn))]> (files w))
             (darksky w) (requests w), Ok tt).

(** [DROP TABLE name]. *)
Definition drop_table (name conn : string) : M unit :=
  fun w =>
    match default ∅ (files w !! conn) !! name with
    | Some _ =>
        (mkWorld (<[conn := delete name (default ∅ (files w !! conn))]> (files w))
                 (darksky w) (requests w), Ok tt)
    | None => (w, Raise (OperationalError ("no such table: " +:+ name)))
    end.

Definition is_real (x : sqlnum) : bool :=
  match x with
  | SInt _ => false
  | SReal _ => true
  end.

(** [pd.DataFrame(c.fetchall(), columns=...)] on the column [GF]: a
    column in which an INTEGER stands next to a REAL becomes a column of
    floats, its integers the nearest doubles.  (A NULL [rain_win_pct]
    reads NaN in the frame; the model keeps it as [None].) *)
Definition frame_of_rows (rows : list Sq.t) : list Sq.t :=
  if existsb (fun s => is_real (Sq.GF s)) rows
  then map (fun s => Sq.mk (Sq.Club s) (Sq.Div s) (Sq.Season s) (Sq.W s)
                           (SReal (to_double (sqlnum_value (Sq.GF s))))
                           (Sq.rain_win_pct s)) rows
  else rows.

Definition calculate_aggregate_stats_sqlite (match_stats_df : DataFrame)
  (database : string) : M (list Sq.t) :=
  conn <- connect database ;;
  _ <- to_sql match_stats_df "temp_rain_stats" conn ;;
  rows <- execute_query conn run_agg_query ;;
  let df := frame_of_rows rows in
  _ <- drop_table "temp_rain_stats" conn ;;
  ret df.

End AggQuery.

(** ** Worked inputs *)

Definition enriched_columns : list string :=
  ["Div"; "Season"; "Date"; "HomeTeam"; "AwayTeam"; "FTHG"; "FTAG"; "rain"].

(** Two matches: A beats B 2-1 at home in the rain, then wins 3-0 away
    on a dry day. *)
Definition two_matches (s1 s2 : Z) (d1 d2 : string) : DataFrame :=
  mkDataFrame enriched_columns
    [[VStr d1; VInt s1; VStr "2020-01-01"; VStr "A"; VStr "B";
      VInt 2; VInt 1; VBool true];
     [VStr d2; VInt s2; VStr "2020-01-02"; VStr "B"; VStr "A";
      VInt 0; VInt 3; VBool false]].

(** Three matches with goal counts at the edge of int64: A beats B
    [2^62] to 1 at home in the rain, twice, and wins 3-0 away on a dry
    day. *)
Definition big_matches : DataFrame :=
  mkDataFrame enriched_columns
    [[VStr "E0"; VInt 2020; VStr "2020-01-01"; VStr "A"; VStr "B";
      VInt 4611686018427387904; VInt 1; VBool true];
     [VStr "E0"; VInt 2020; VStr "2020-01-08"; VStr "A"; VStr "B";
      VInt 4611686018427387904; VInt 1; VBool true];
     [VStr "E0"; VInt 2020; VStr "2020-01-02"; VStr "B"; VStr "A";
      VInt 0; VInt 3; VBool false]].

Definition big_matches_rows : list Match :=
  [mkMatch "E0" 2020 "A" "B" 4611686018427387904 1 true;
   mkMatch "E0" 2020 "A" "B" 4611686018427387904 1 true;
   mkMatch "E0" 2020 "B" "A" 0 3 false].

(** Two matches in which A scores [2^62] goals at home and [2^62] away:
    each sum fits int64, their sum does not. *)
Definition half_matches : DataFrame :=
  mkDataFrame enriched_columns
    [[VStr "E0"; VInt 2020; VStr "2020-01-01"; VStr "A"; VStr "B";
      VInt 4611686018427387904; VInt 0; VBool true];
     [VStr "E0"; VInt 2020; VStr "2020-01-02"; VStr "B"; VStr "A";
      VInt 0; VInt 4611686018427387904; VBool false]].

Definition icon_response (icon : string) : json :=
  JObj [("daily", JObj [("data", JArr [JObj [("icon", JStr icon)]])])].

(** A season of four matches on three dates, and a service under which
    it rains every day. *)
Definition matches_2011 : DataFrame :=
  mkDataFrame ["Div"; "Season"; "Date"; "HomeTeam"; "AwayTeam"; "FTHG"; "FTAG"]
    [[VStr "D1"; VInt 2011; VStr "2011-08-05"; VStr "A"; VStr "B"; VInt 1; VInt 0];
     [VStr "E0"; VInt 2011; VStr "2011-08-06"; VStr "C"; VStr "D"; VInt 2; VInt 2];
     [VStr "E0"; VInt 2011; VStr "2011-08-05"; VStr "D"; VStr "C"; VInt 0; VInt 1];
     [VStr "E0"; VInt 2011; VStr "2011-08-07"; VStr "B"; VStr "A"; VInt 3; VInt 1]].

Definition world_2011 : World :=
  mkWorld {[ "database.sqlite" := {[ "Matches" := matches_2011 ]} ]}
          (fun _ => Some (icon_response "rain")) [].

Definition url_2011 (date : string) : string :=
  forecast_url "key" lat_default long_default (date +:+ "T00:00:00").

(** ** Vocabulary of the statements *)

(** The request [get_weather_data] sends for a date, if the date is a
    string. *)
Definition weather_request (password : string) (date : value) : option string :=
  match date with
  | VStr d => Some (forecast_url password lat_default long_default (d +:+ "T00:00:00"))
  | _ => None
  end.

(** [result['daily']['data'][0].get('icon') == 'rain'] on a response. *)
Definition read_icon (j : json) : result bool :=
  daily <-? json_key j "daily" ;;
  data <-? json_key daily "data" ;;
  day <-? json_first data ;;
  icon <-? json_get day "icon" ;;
  Ok (is_rain icon).

(** What the service of world [w] has to say about a date. *)
Definition weather_of (w : World) (password : string) (date : value) : result bool :=
  match weather_request password date with
  | Some url => match darksky w url with
                | Some j => read_icon j
                | None => Raise ConnectionError
                end
  | None => Raise TypeError
  end.

Definition answered (w : World) (password : string) (date : value) : Prop :=
  exists rain, weather_of w password date = Ok rain.

Definition rain_flag (w : World) (password : string) (date : value) : bool :=
  match weather_of w password date with
  | Ok rain => rain
  | Raise _ => false
  end.

(** Every row has one cell per column. *)
Definition well_formed (df : DataFrame) : Prop :=
  Forall (fun r => length r = length (columns df)) (rows df).

(** A rain-observation table as [rain_dates] builds it: the columns
    [Date] and [rain], one row per date. *)
Definition rain_table (R : DataFrame) : Prop :=
  columns R = ["Date"; "rain"]
  /\ Forall (fun r => length r = 2%nat) (rows R)
  /\ NoDup (map (fun r => nth 0 r VNone) (rows R)).

Definition rain_2011 : DataFrame :=
  mkDataFrame ["Date"; "rain"]
    [[VStr "2011-08-05"; VBool true]; [VStr "2011-08-06"; VBool false]].

Definition joined_once : DataFrame :=
  mkDataFrame ["Div"; "Season"; "Date"; "HomeTeam"; "AwayTeam"; "FTHG"; "FTAG"; "rain"]
    [[VStr "D1"; VInt 2011; VStr "2011-08-05"; VStr "A"; VStr "B";
      VInt 1; VInt 0; VBool true];
     [VStr "E0"; VInt 2011; VStr "2011-08-06"; VStr "C"; VStr "D";
      VInt 2; VInt 2; VBool false];
     [VStr "E0"; VInt 2011; VStr "2011-08-05"; VStr "D"; VStr "C";
      VInt 0; VInt 1; VBool true]].

Definition joined_twice : DataFrame :=
  mkDataFrame ["Div"; "Season"; "Date"; "HomeTeam"; "AwayTeam"; "FTHG"; "FTAG";
               "rain_x"; "rain_y"]
    [[VStr "D1"; VInt 2011; VStr "2011-08-05"; VStr "A"; VStr "B";
      VInt 1; VInt 0; VBool true; VBool true];
     [VStr "E0"; VInt 2011; VStr "2011-08-06"; VStr "C"; VStr "D";
      VInt 2; VInt 2; VBool false; VBool false];
     [VStr "E0"; VInt 2011; VStr "2011-08-05"; VStr "D"; VStr "C";
      VInt 0; VInt 1; VBool true; VBool true]].

(** An enriched match table: a frame that reads as the rows [ms]. *)
Definition enriched (df : DataFrame) (ms : list Match) : Prop :=
  to_matches KeyError df = Ok ms.

(** The table [name] of the database file [database], if there is one. *)
Definition table_of (w : World) (database name : string) : option DataFrame :=
  default ∅ (files w !! database) !! name.

(** *** Per-team quantities, counted over the whole table *)

Definition count (P : Match -> bool) (ms : list Match) : Z :=
  Z.of_nat (length (List.filter P ms)).

Definition is_home (t : string) (m : Match) : bool := bool_decide (HomeTeam m = t).
Definition is_away (t : string) (m : Match) : bool := bool_decide (AwayTeam m = t).

Definition matches_played (t : string) (ms : list Match) : Z :=
  count (fun m => is_home t m || is_away t m) ms.

Definition total_wins (t : string) (ms : list Match) : Z :=
  count (fun m => is_home t m && (FTHG m >? FTAG m)%Z) ms
  + count (fun m => is_away t m && (FTAG m >? FTHG m)%Z) ms.

Definition total_goals (t : string) (ms : list Match) : Z :=
  sum_of (fun m => if is_home t m then FTHG m else 0) ms
  + sum_of (fun m => if is_away t m then FTAG m else 0) ms.

Definition rain_wins (t : string) (ms : list Match) : Z :=
  count (fun m => is_home t m && (FTHG m >? FTAG m)%Z && rain m) ms
  + count (fun m => is_away t m && (FTAG m >? FTHG m)%Z && rain m) ms.

Definition rain_games (t : string) (ms : list Match) : Z :=
  count (fun m => is_home t m && rain m) ms
  + count (fun m => is_away t m && rain m) ms.

Definition rain_ratio (t : string) (ms : list Match) : Q :=
  Qmake (rain_wins t ms) 1 / Qmake (rain_games t ms) 1.

(** [x] is [r] rounded to [n] decimal digits: a multiple of [10^-n] at
    most half a unit of the last digit away from [r]. *)
Definition rounded_to (n : nat) (x r : Q) : Prop :=
  (exists k : Z, x == Qmake k (pow10 n))%Q
  /\ (r - Qmake 1 (2 * pow10 n) <= x)%Q
  /\ (x <= r + Qmake 1 (2 * pow10 n))%Q.


(** The goals of a table stay clear of the int64 range: the absolute
    values of all goal cells together are below [2^63], so no sum of
    goal cells overflows. *)
Definition goals_bounded (ms : list Match) : Prop :=
  (sum_of (fun m => Z.abs (FTHG m) + Z.abs (FTAG m)) ms < 2 ^ 63)%Z.


(** Every goal cell is an int64. *)
Definition int64_goals (ms : list Match) : Prop :=
  Forall (fun m => in_int64 (FTHG m) = true /\ in_int64 (FTAG m) = true) ms.

(** The column [c] of a frame holds integers. *)
Definition int_column (c : string) (df : DataFrame) : Prop :=
  exists i, index_of c (columns df) = Some i
            /\ Forall (fun r => exists z, nth i r VNone = VInt z) (rows df).



(** *** The records, team by team *)

Definition group (key : Match -> string) (t : string) (ms : list Match)
  : list Match :=
  filter (fun m => key m = t) ms.

Definition home_stats_of (ms : list Match) (t : string) : HomeStats :=
  mkHomeStats (int64_sum FTHG (group HomeTeam t ms))
              (sum_of (fun m => Z.b2z (home_win m)) (group HomeTeam t ms))
              (sum_of (fun m => Z.b2z (rain_home_win m)) (group HomeTeam t ms))
              (sum_of (fun m => Z.b2z (rain m)) (group HomeTeam t ms)).

Definition away_stats_of (ms : list Match) (t : string) : AwayStats :=
  mkAwayStats (int64_sum FTAG (group AwayTeam t ms))
              (sum_of (fun m => Z.b2z (away_win m)) (group AwayTeam t ms))
              (sum_of (fun m => Z.b2z (rain_away_win m)) (group AwayTeam t ms))
              (sum_of (fun m => Z.b2z (rain m)) (group AwayTeam t ms)).

Definition home_max_of (ms : list Match) (t : string) : Z * string :=
  (default 0 (max_of Z.leb (map Season (group HomeTeam t ms))),
   default "" (max_of String.leb (map Div (group HomeTeam t ms)))).

Definition pandas_record (ms : list Match) (t : string) : Pd.t :=
  let r := agg_row (home_stats_of ms t, away_stats_of ms t) in
  Pd.mk t r.1.1 r.1.2 r.2 (home_max_of ms t).1 (home_max_of ms t).2.





Definition dates_with_repeats : list value :=
  [VStr "2011-08-05"; VStr "2011-08-06"; VStr "2011-08-05"; VStr "2011-08-06";
   VStr "2011-08-05"].

(** The columns the aggregators read. *)
Definition aggregator_columns : list string :=
  ["FTHG"; "FTAG"; "rain"; "HomeTeam"; "AwayTeam"; "Season"; "Div"].

Definition two_matches_rows : list Match :=
  [mkMatch "E0" 2020 "A" "B" 2 1 true; mkMatch "E0" 2020 "B" "A" 0 3 false].

(** ** get_api_key *)

(** [str.isspace] on an ASCII character: tab, line feed, vertical tab,
    form feed, carriage return, the four separators [\x1c]..[\x1f] and
    the space. *)
Definition isspace (c : ascii) : bool :=
  let n := N_of_ascii c in
  ((9 <=? n)%N && (n <=? 13)%N) || ((28 <=? n)%N && (n <=? 32)%N).

Fixpoint lstrip (s : string) : string :=
  match s with
  | String c s' => if isspace c then lstrip s' else s
  | EmptyString => EmptyString
  end.

Fixpoint rstrip (s : string) : string :=
  match s with
  | String c s' =>
      match rstrip s' with
      | EmptyString => if isspace c then EmptyString else String c EmptyString
      | r => String c r
      end
  | EmptyString => EmptyString
  end.

(** [s.strip()]. *)
Definition strip (s : string) : string := rstrip (lstrip s).

Inductive os_error :=
| FileNotFoundError (path : string).

(** [get_api_key] over a store of text files.  The text of a file is a
    string of one-byte characters: this is the file's text when the file
    is ASCII, which the statements below ask for. *)
Definition get_api_key (fs : gmap string string) (path : string)
  : os_error + string :=
  match fs !! path with
  | Some content => inr (strip content)
  | None => inl (FileNotFoundError path)
  end.

Fixpoint ascii_text (s : string) : bool :=
  match s with
  | String c s' => (N_of_ascii c <? 128)%N && ascii_text s'
  | EmptyString => true
  end.

Fixpoint all_space (s : string) : bool :=
  match s with
  | String c s' => isspace c && all_space s'
  | EmptyString => true
  end.

Definition starts_with_space (s : string) : bool :=
  match s with
  | String c _ => isspace c
  | EmptyString => false
  end.

Fixpoint ends_with_space (s : string) : bool :=
  match s with
  | String c EmptyString => isspace c
  | String _ s' => ends_with_space s'
  | EmptyString => false
  end.

Definition secret_files : gmap string string :=
  {[ ".secret" := String "009" (String "032" ("0123abcd" +:+ String "010" EmptyString)) ]}.

(** A season whose two matches are played on the same day. *)
Definition one_day_2012 : DataFrame :=
  mkDataFrame ["Div"; "Season"; "Date"; "HomeTeam"; "AwayTeam"; "FTHG"; "FTAG"]
    [[VStr "E0"; VInt 2012; VStr "2012-08-18"; VStr "A"; VStr "B"; VInt 1; VInt 0];
     [VStr "E0"; VInt 2012; VStr "2012-08-18"; VStr "C"; VStr "D"; VInt 0; VInt 0]].

Definition world_2012 : World :=
  mkWorld {[ "database.sqlite" := {[ "Matches" := one_day_2012 ]} ]}
          (fun _ => Some (icon_response "rain")) [].

(** * Properties *)

(** ** The database argument *)

(** C10: [match_rain_data] does not depend on its [database] argument:
    whatever two paths are passed, from the same world it gives the same
    result and leaves the same world, the match data being read from
    [database.sqlite]. *)
Theorem match_rain_data_ignores_database :
  forall (d1 d2 : string) (season : Z) (password : string) (limit : Z)
         (w : World),
    match_rain_data d1 season password limit w
    = match_rain_data d2 season password limit w.
Proof. intros. unfold match_rain_data. reflexivity. Qed.

(** The path that is read is [database.sqlite], also when another file
    with other matches is passed. *)
Example match_rain_data_reads_fixed_path :
  (match_rain_data "other.sqlite" 2011 "key" 3
     (mkWorld (<["other.sqlite" := ∅]> (files world_2011))
              (darksky world_2011) [])).2
  = (match_rain_data "database.sqlite" 2011 "key" 3 world_2011).2.
Proof. vm_compute. reflexivity. Qed.

(** ** The limit on weather requests *)

Lemma slice_to_nonneg {A} (n : Z) (l : list A) :
  (0 <= n)%Z -> slice_to n l = take (Z.to_nat n) l.
Proof.
  intros Hn. unfold slice_to.
  destruct (Z.ltb_spec n 0) as [H|H]; [lia | reflexivity].
Qed.

Lemma slice_to_default {A} (l : list A) :
  slice_to limit_api_calls_default l = take (length l - 1)%nat l.
Proof.
  unfold slice_to, limit_api_calls_default. simpl. f_equal. lia.
Qed.

(** C1, at the default limit: on a season with matches on three dates
    the weather is requested for the first two only, and the match on the
    third date is missing from the result. *)
Theorem match_rain_data_default_limit_drops_last_date :
  exists w',
    match_rain_data "database.sqlite" 2011 "key" limit_api_calls_default world_2011
    = (w', Ok (mkDataFrame
         ["Div"; "Season"; "Date"; "HomeTeam"; "AwayTeam"; "FTHG"; "FTAG"; "rain"]
         [[VStr "D1"; VInt 2011; VStr "2011-08-05"; VStr "A"; VStr "B";
           VInt 1; VInt 0; VBool true];
          [VStr "E0"; VInt 2011; VStr "2011-08-06"; VStr "C"; VStr "D";
           VInt 2; VInt 2; VBool true];
          [VStr "E0"; VInt 2011; VStr "2011-08-05"; VStr "D"; VStr "C";
           VInt 0; VInt 1; VBool true]]))
    /\ requests w' = [url_2011 "2011-08-05"; url_2011 "2011-08-06"].
Proof. eexists. split; vm_compute; reflexivity. Qed.

(** ** One weather request per distinct date *)

Lemma set_iter_NoDup (l : list value) : NoDup (set_iter l).
Proof. unfold set_iter. apply NoDup_elements. Qed.

Lemma set_iter_elem_of (l : list value) (d : value) : d ∈ set_iter l <-> d ∈ l.
Proof. unfold set_iter. rewrite elem_of_elements, elem_of_list_to_set. reflexivity. Qed.

Lemma get_weather_data_answered (w : World) (password : string) (date : value)
  (rain : bool) (url : string) :
  weather_request password date = Some url ->
  weather_of w password date = Ok rain ->
  get_weather_data date password lat_default long_default w
  = (mkWorld (files w) (darksky w) (requests w ++ [url]), Ok (date, rain)).
Proof.
  unfold weather_of. intros Hreq Hw. rewrite Hreq in Hw.
  destruct date as [ | |d| ]; try discriminate. simpl in Hreq.
  injection Hreq as <-.
  unfold get_weather_data, bind, requests_get_json.
  destruct (darksky w _) as [j|]; [|discriminate].
  unfold read_icon in Hw. unfold lift, ret.
  destruct (json_key j "daily") as [daily|]; simpl in Hw; [|discriminate].
  destruct (json_key daily "data") as [data|]; simpl in Hw; [|discriminate].
  destruct (json_first data) as [day|]; simpl in Hw; [|discriminate].
  destruct (json_get day "icon") as [icon|]; simpl in Hw; [|discriminate].
  injection Hw as <-. reflexivity.
Qed.

(** A call to the weather client sends at most one request and changes
    nothing else. *)
Lemma get_weather_data_world (w : World) (password : string) (date : value) :
  let w' := (get_weather_data date password lat_default long_default w).1 in
  files w' = files w /\ darksky w' = darksky w
  /\ exists sent, requests w' = requests w ++ sent /\ (length sent <= 1)%nat.
Proof.
  destruct date as [ | |d| ]; simpl;
    try (split; [reflexivity|split; [reflexivity|]];
         exists []; rewrite app_nil_r; simpl; split; [reflexivity|lia]).
  unfold bind, requests_get_json.
  destruct (darksky w _) as [j|]; simpl.
  - unfold lift, ret.
    destruct (json_key j "daily") as [daily|]; simpl;
      [destruct (json_key daily "data") as [data|]; simpl;
       [destruct (json_first data) as [day|]; simpl;
        [destruct (json_get day "icon") as [icon|]; simpl|]|]|];
      (split; [reflexivity|split; [reflexivity|]]; eexists; split;
       [reflexivity|simpl; lia]).
  - split; [reflexivity|split; [reflexivity|]]. eexists; split; [reflexivity|simpl; lia].
Qed.

Lemma rain_loop_bound (dates : list value) (password : string) :
  forall (data : list (list value)) (w : World),
    (length (requests (rain_loop dates password data w).1)
     <= length (requests w) + length dates)%nat.
Proof.
  induction dates as [|date dates IH]; intros data w; simpl.
  - lia.
  - unfold bind.
    pose proof (get_weather_data_world w password date) as (_ & _ & sent & Hs & Hl).
    destruct (get_weather_data date password lat_default long_default w)
      as [w1 [dr|e]]; simpl in *.
    + specialize (IH (data ++ [[dr.1; VBool dr.2]]) w1).
      rewrite Hs, length_app in IH. lia.
    + rewrite Hs, length_app. lia.
Qed.

Lemma rain_loop_answered (dates : list value) (password : string) :
  forall (data : list (list value)) (w : World),
    Forall (answered w password) dates ->
    rain_loop dates password data w
    = (mkWorld (files w) (darksky w)
               (requests w ++ omap (weather_request password) dates),
       Ok (data ++ map (fun d => [d; VBool (rain_flag w password d)]) dates)).
Proof.
  induction dates as [|date dates IH]; intros data w Hall; simpl.
  - rewrite !app_nil_r. destruct w; reflexivity.
  - apply Forall_cons in Hall as [[rain Hrain] Hall].
    assert (exists url, weather_request password date = Some url) as [url Hurl].
    { unfold weather_of in Hrain.
      destruct (weather_request password date); [eauto|discriminate]. }
    unfold bind.
    rewrite (get_weather_data_answered w password date rain url Hurl Hrain).
    simpl. rewrite Hurl.
    set (w1 := mkWorld (files w) (darksky w) (requests w ++ [url])).
    assert (Hsame : forall d, weather_of w1 password d = weather_of w password d)
      by reflexivity.
    rewrite IH.
    + simpl. unfold rain_flag at 2. rewrite Hrain.
      rewrite <- !app_assoc. simpl. repeat f_equal.
    + eapply Forall_impl; [exact Hall|]. intros d [b Hb]. exists b. exact Hb.
Qed.

Lemma omap_weather_request_length (w : World) (password : string)
  (dates : list value) :
  Forall (answered w password) dates ->
  length (omap (weather_request password) dates) = length dates.
Proof.
  induction 1 as [|d dates [rain Hd] _ IH]; simpl; [reflexivity|].
  unfold weather_of in Hd.
  destruct (weather_request password d); [|discriminate].
  cbn [length]. f_equal. exact IH.
Qed.

Lemma append_length (s t : string) :
  String.length (s +:+ t) = (String.length s + String.length t)%nat.
Proof.
  induction s as [|a s IH]; [reflexivity|].
  change (S (String.length (s +:+ t)) = S (String.length s + String.length t)).
  rewrite IH. reflexivity.
Qed.

Lemma append_inj_r (t s1 s2 : string) : s1 +:+ t = s2 +:+ t -> s1 = s2.
Proof.
  revert s2. induction s1 as [|a s1 IH]; intros [|b s2] H.
  - reflexivity.
  - apply (f_equal String.length) in H.
    rewrite !append_length in H. simpl in H. lia.
  - apply (f_equal String.length) in H.
    rewrite !append_length in H. simpl in H. lia.
  - change (String a (s1 +:+ t) = String b (s2 +:+ t)) in H.
    injection H as -> H. f_equal. apply IH, H.
Qed.

(** Different dates are different requests. *)
Lemma weather_request_inj (password : string) (d1 d2 : value) (url : string) :
  weather_request password d1 = Some url ->
  weather_request password d2 = Some url ->
  d1 = d2.
Proof.
  destruct d1 as [ | |s1| ], d2 as [ | |s2| ]; simpl; try discriminate.
  intros [= <-] [= H]. unfold forecast_url in H.
  repeat (apply String.app_inj in H).
  apply append_inj_r in H. congruence.
Qed.

Lemma omap_weather_request_NoDup (password : string) (dates : list value) :
  NoDup dates -> NoDup (omap (weather_request password) dates).
Proof.
  induction 1 as [|d dates Hd _ IH]; simpl; [constructor|].
  destruct (weather_request password d) as [url|] eqn:Hurl; [|exact IH].
  constructor; [|exact IH].
  intros Hin. apply list_elem_of_omap in Hin as (d' & Hd' & Hurl').
  rewrite (weather_request_inj password d d' url Hurl Hurl') in Hd. exact (Hd Hd').
Qed.

(** C5: [rain_dates] walks over the distinct dates of its input, each
    once.  It never sends more requests than there are distinct dates and
    never the same request twice; and when the service answers for every
    date of the list, it sends exactly one request per distinct date and
    returns a frame with exactly one [(Date, rain)] row per distinct
    date. *)
Theorem rain_dates_one_request_per_distinct_date :
  forall (unique_dates : list value) (password : string) (w : World),
    let distinct := set_iter unique_dates in
    let out := rain_dates unique_dates password w in
    NoDup distinct
    /\ (forall d, d ∈ distinct <-> d ∈ unique_dates)
    /\ (length (requests out.1) <= length (requests w) + length distinct)%nat
    /\ (Forall (answered w password) unique_dates ->
        requests out.1 = requests w ++ omap (weather_request password) distinct
        /\ NoDup (omap (weather_request password) distinct)
        /\ length (requests out.1) = (length (requests w) + length distinct)%nat
        /\ exists df, out.2 = Ok df
           /\ rows df = map (fun d => [d; VBool (rain_flag w password d)]) distinct).
Proof.
  intros unique_dates password w distinct out. subst distinct out.
  split; [apply set_iter_NoDup|].
  split; [apply set_iter_elem_of|].
  split.
  - unfold rain_dates, bind.
    pose proof (rain_loop_bound (set_iter unique_dates) password [] w) as Hb.
    destruct (rain_loop (set_iter unique_dates) password [] w) as [w1 [data|e]];
      simpl in *; exact Hb.
  - intros Hall.
    assert (Hd : Forall (answered w password) (set_iter unique_dates)).
    { apply Forall_forall. intros d Hd.
      rewrite Forall_forall in Hall. apply Hall.
      apply set_iter_elem_of, Hd. }
    unfold rain_dates, bind.
    rewrite (rain_loop_answered (set_iter unique_dates) password [] w Hd). simpl.
    split; [reflexivity|].
    split; [apply omap_weather_request_NoDup, set_iter_NoDup|]. split.
    + rewrite length_app, (omap_weather_request_length w); [reflexivity|exact Hd].
    + eexists. split; [reflexivity|].
      destruct (map _ (set_iter unique_dates)); reflexivity.
Qed.

Lemma rain_dates_one_request_per_distinct_date_witness :
  Forall (answered world_2011 "key") dates_with_repeats
  /\ length (requests (rain_dates dates_with_repeats "key" world_2011).1) = 2%nat
  /\ exists df, (rain_dates dates_with_repeats "key" world_2011).2 = Ok df
       /\ length (rows df) = 2%nat.
Proof.
  assert (H : Forall (answered world_2011 "key") dates_with_repeats).
  { repeat constructor; exists true; vm_compute; reflexivity. }
  split; [exact H|].
  destruct (rain_dates_one_request_per_distinct_date
              dates_with_repeats "key" world_2011) as (_ & _ & _ & Hok).
  destruct (Hok H) as (_ & _ & Hlen & df & Hdf & Hrows).
  split.
  - rewrite Hlen. vm_compute. reflexivity.
  - exists df. split; [exact Hdf|]. rewrite Hrows. vm_compute. reflexivity.
Defined.

(** What [match_rain_data] requests, for any limit: the distinct dates of
    the slice. *)
Lemma unique_from_subseteq (l seen : list value) (d : value) :
  d ∈ unique_from seen l -> d ∈ l.
Proof.
  revert seen. induction l as [|x l IH]; intros seen; simpl.
  - intros Hd. exact Hd.
  - case_bool_decide.
    + intros Hd. right. eapply IH, Hd.
    + intros Hd. apply elem_of_cons in Hd as [->|Hd]; [left|right; eapply IH, Hd].
Qed.

Lemma slice_to_subseteq {A} (n : Z) (l : list A) (x : A) :
  x ∈ slice_to n l -> x ∈ l.
Proof.
  unfold slice_to. destruct (n <? 0)%Z; intros H;
    (eapply subseteq_take; exact H).
Qed.

Lemma match_rain_data_requests (database : string) (season : Z)
  (password : string) (limit : Z) (w w1 : World) (match_data : DataFrame)
  (dates : list value) :
  get_season_data "database.sqlite" season w = (w1, Ok match_data) ->
  getitem match_data "Date" = Ok dates ->
  Forall (answered w1 password) dates ->
  requests (match_rain_data database season password limit w).1
  = requests w1
    ++ omap (weather_request password) (set_iter (slice_to limit (unique dates))).
Proof.
  intros Hseason Hdates Hall.
  unfold match_rain_data, bind. rewrite Hseason.
  unfold lift at 1. rewrite Hdates.
  set (sl := slice_to limit (unique dates)).
  assert (Hsl : Forall (answered w1 password) sl).
  { rewrite Forall_forall in Hall. apply Forall_forall. intros d Hd.
    apply Hall. eapply unique_from_subseteq, slice_to_subseteq, Hd. }
  destruct (rain_dates_one_request_per_distinct_date sl password w1)
    as (_ & _ & _ & Hok).
  destruct (Hok Hsl) as (Hreq & _ & _ & df & Hdf & _).
  destruct (rain_dates sl password w1) as [w2 r]. simpl in *. subst r.
  unfold lift. destruct (merge match_data df "Date"); exact Hreq.
Qed.

(** X23: for a limit [N >= 0], when the season is read and the service
    answers for its dates, the weather requests that [match_rain_data]
    sends are those for the first [N] distinct dates of the [Date]
    column (first by first appearance in the column), one request
    each. *)
Lemma match_rain_data_requests_first_N (database : string) (season : Z)
  (password : string) (N : Z) (w w1 : World) (match_data : DataFrame)
  (dates : list value) :
  (0 <= N)%Z ->
  get_season_data "database.sqlite" season w = (w1, Ok match_data) ->
  getitem match_data "Date" = Ok dates ->
  Forall (answered w1 password) dates ->
  requests (match_rain_data database season password N w).1
  = requests w1
    ++ omap (weather_request password) (set_iter (take (Z.to_nat N) (unique dates))).
Proof.
  intros HN Hs Hd Ha. rewrite <- (slice_to_nonneg N) by exact HN.
  eapply match_rain_data_requests; eassumption.
Qed.

(** At the default limit they are all distinct dates but the last. *)
Lemma match_rain_data_requests_default (database : string) (season : Z)
  (password : string) (w w1 : World) (match_data : DataFrame)
  (dates : list value) :
  get_season_data "database.sqlite" season w = (w1, Ok match_data) ->
  getitem match_data "Date" = Ok dates ->
  Forall (answered w1 password) dates ->
  requests (match_rain_data database season password limit_api_calls_default w).1
  = requests w1
    ++ omap (weather_request password)
         (set_iter (take (length (unique dates) - 1)%nat (unique dates))).
Proof.
  intros Hs Hd Ha. rewrite <- slice_to_default.
  eapply match_rain_data_requests; eassumption.
Qed.

(** ** Joining twice *)

Lemma index_of_lt (c : string) (cols : list string) (i : nat) :
  index_of c cols = Some i -> (i < length cols)%nat.
Proof.
  revert i. induction cols as [|c' cols IH]; intros i; simpl; [discriminate|].
  destruct (String.eqb c c').
  - intros [= <-]. lia.
  - destruct (index_of c cols) as [k|]; simpl; [|discriminate].
    intros [= <-]. specialize (IH k eq_refl). lia.
Qed.

Lemma index_of_app_l (c : string) (cols more : list string) (i : nat) :
  index_of c cols = Some i -> index_of c (cols ++ more) = Some i.
Proof.
  revert i. induction cols as [|c' cols IH]; intros i; simpl; [discriminate|].
  destruct (String.eqb c c'); [intros H; exact H|].
  destruct (index_of c cols) as [k|]; simpl; [|discriminate].
  intros [= <-]. rewrite (IH k eq_refl). reflexivity.
Qed.

Lemma index_of_elem (c : string) (cols : list string) :
  c ∈ cols -> exists i, index_of c cols = Some i.
Proof.
  induction cols as [|c' cols IH]; intros Hin.
  - inversion Hin.
  - simpl. destruct (String.eqb_spec c c') as [->|Hne]; [eauto|].
    apply elem_of_cons in Hin as [Heq|Hin]; [contradiction|].
    destruct (IH Hin) as [i ->]. simpl. eauto.
Qed.

Lemma flat_map_flat_map {A B C} (f : B -> list C) (g : A -> list B) (l : list A) :
  flat_map f (flat_map g l) = flat_map (fun a => flat_map f (g a)) l.
Proof.
  induction l as [|a l IH]; simpl; [reflexivity|].
  rewrite flat_map_app, IH. reflexivity.
Qed.

Lemma map_flat_map {A B C} (h : B -> C) (g : A -> list B) (l : list A) :
  map h (flat_map g l) = flat_map (fun a => map h (g a)) l.
Proof.
  induction l as [|a l IH]; simpl; [reflexivity|].
  rewrite map_app, IH. reflexivity.
Qed.

Lemma flat_map_ext_elem {A B} (f g : A -> list B) (l : list A) :
  (forall a, a ∈ l -> f a = g a) -> flat_map f l = flat_map g l.
Proof.
  induction l as [|a l IH]; intros H; simpl; [reflexivity|].
  rewrite H by left. rewrite IH; [reflexivity|].
  intros b Hb. apply H. right. exact Hb.
Qed.

(** In a list whose keys are pairwise different, one key selects one
    element. *)
Lemma flat_map_select {A K B} `{EqDecision K} (k : A -> K) (g : A -> B)
  (l : list A) (a : A) :
  NoDup (map k l) -> a ∈ l ->
  flat_map (fun b => if bool_decide (k a = k b) then [g b] else []) l = [g a].
Proof.
  induction l as [|b l IH]; intros Hnd Hin; [inversion Hin|].
  simpl in Hnd. apply NoDup_cons in Hnd as [Hb Hnd]. simpl.
  apply elem_of_cons in Hin as [->|Hin].
  - rewrite bool_decide_eq_true_2 by reflexivity. simpl. f_equal.
    clear IH. induction l as [|c l IH]; simpl; [reflexivity|].
    simpl in Hb, Hnd. apply NoDup_cons in Hnd as [_ Hnd].
    rewrite bool_decide_eq_false_2.
    + apply IH; [|exact Hnd]. intros H. apply Hb. right. exact H.
    + intros Heq. apply Hb. rewrite Heq. left.
  - rewrite bool_decide_eq_false_2.
    + simpl. apply IH; assumption.
    + intros Heq. apply Hb. rewrite <- Heq.
      apply list_elem_of_fmap. exists a. split; [reflexivity|exact Hin].
Qed.

Lemma merge_columns_once (cols : list string) :
  "rain" ∉ cols ->
  merge_columns cols ["Date"; "rain"] "Date" 0 = cols ++ ["rain"].
Proof.
  intros Hrain. unfold merge_columns. f_equal.
  - induction cols as [|c cols IH]; simpl; [reflexivity|].
    rewrite IH by (intros H; apply Hrain; right; exact H). f_equal.
    destruct (String.eqb_spec c "Date") as [->|Hne]; [reflexivity|].
    rewrite bool_decide_eq_false_2; [reflexivity|].
    intros Hin. apply elem_of_cons in Hin as [->|Hin]; [contradiction|].
    apply list_elem_of_singleton in Hin as ->. apply Hrain. left.
  - simpl. rewrite bool_decide_eq_false_2 by exact Hrain. reflexivity.
Qed.

Lemma merge_columns_twice (cols : list string) :
  "rain" ∉ cols ->
  merge_columns (cols ++ ["rain"]) ["Date"; "rain"] "Date" 0
  = cols ++ ["rain_x"; "rain_y"].
Proof.
  intros Hrain. unfold merge_columns. rewrite map_app, <- app_assoc. f_equal.
  - induction cols as [|c cols IH]; simpl; [reflexivity|].
    rewrite IH by (intros H; apply Hrain; right; exact H). f_equal.
    destruct (String.eqb_spec c "Date") as [->|Hne]; [reflexivity|].
    rewrite bool_decide_eq_false_2; [reflexivity|].
    intros Hin. apply elem_of_cons in Hin as [->|Hin]; [contradiction|].
    apply list_elem_of_singleton in Hin as ->. apply Hrain. left.
  - simpl. rewrite bool_decide_eq_true_2.
    + reflexivity.
    + apply elem_of_app. right. left.
Qed.

Lemma merge_rows_twice (i : nat) (lrows rrows : list (list value)) :
  Forall (fun l => (i < length l)%nat) lrows ->
  Forall (fun r => length r = 2%nat) rrows ->
  NoDup (map (fun r => nth 0 r VNone) rrows) ->
  merge_rows i 0 (merge_rows i 0 lrows rrows) rrows
  = map (fun r => r ++ [List.last r VNone]) (merge_rows i 0 lrows rrows).
Proof.
  intros Hl Hr Hnd. unfold merge_rows.
  rewrite flat_map_flat_map, map_flat_map.
  apply flat_map_ext_elem. intros l Hlin.
  rewrite flat_map_flat_map, map_flat_map.
  apply flat_map_ext_elem. intros r Hrin.
  rewrite Forall_forall in Hl, Hr.
  specialize (Hl l Hlin). specialize (Hr r Hrin).
  case_bool_decide as Hkey; simpl; [|reflexivity].
  rewrite app_nil_r.
  rewrite (flat_map_ext_elem _
    (fun r' => if bool_decide (nth 0 r VNone = nth 0 r' VNone)
               then [(l ++ delete O r) ++ delete O r'] else [])).
  - rewrite (flat_map_select (fun r => nth 0 r VNone)
               (fun r' => (l ++ delete O r) ++ delete O r') rrows r Hnd Hrin).
    destruct r as [|d [|v [|x r]]]; try discriminate. simpl.
    rewrite List.last_last. reflexivity.
  - intros r' _. rewrite app_nth1 by exact Hl. rewrite Hkey. reflexivity.
Qed.

(** C4, the claim as stated fails: joining the joined table again with
    the same rain table gives a table with the columns [rain_x] and
    [rain_y] in place of [rain]. *)
Lemma merge_twice_is_not_merge_once :
  merge matches_2011 rain_2011 "Date" = Ok joined_once
  /\ merge joined_once rain_2011 "Date" = Ok joined_twice
  /\ joined_twice <> joined_once.
Proof. repeat split; [vm_compute; reflexivity ..|discriminate]. Qed.

(** C4, amended: for a rain table with one row per date, joining the
    joined table again with it keeps the rows, their order and every
    column of the match table, and carries the rain flag twice, as
    [rain_x] and [rain_y]. *)
Theorem merge_twice_repeats_rain :
  forall (match_data rain_days once : DataFrame),
    well_formed match_data ->
    "rain" ∉ columns match_data ->
    rain_table rain_days ->
    merge match_data rain_days "Date" = Ok once ->
    columns once = columns match_data ++ ["rain"]
    /\ merge once rain_days "Date"
       = Ok (mkDataFrame (columns match_data ++ ["rain_x"; "rain_y"])
               (map (fun r => r ++ [List.last r VNone]) (rows once))).
Proof.
  intros [cols lrows] [rcols rrows] once Hwf Hrain (Hcols & Hlen & Hnd) Hmerge.
  simpl in *. subst rcols.
  unfold merge in Hmerge. simpl in Hmerge.
  destruct (index_of "Date" cols) as [i|] eqn:Hi; [|discriminate].
  injection Hmerge as <-. simpl.
  rewrite merge_columns_once by exact Hrain.
  split; [reflexivity|].
  unfold merge. simpl.
  rewrite (index_of_app_l "Date" cols ["rain"] i Hi).
  rewrite merge_columns_twice by exact Hrain.
  rewrite merge_rows_twice; [reflexivity| |exact Hlen|exact Hnd].
  unfold well_formed in Hwf. simpl in Hwf.
  eapply Forall_impl; [exact Hwf|]. intros l Hl. simpl in Hl. rewrite Hl.
  apply (index_of_lt "Date" cols i Hi).
Qed.

Lemma merge_twice_repeats_rain_witness :
  well_formed matches_2011
  /\ ("rain" ∉ columns matches_2011)
  /\ rain_table rain_2011
  /\ merge matches_2011 rain_2011 "Date" = Ok joined_once
  /\ merge joined_once rain_2011 "Date" = Ok joined_twice.
Proof.
  assert (Hwf : well_formed matches_2011) by (repeat constructor).
  assert (Hrain : "rain" ∉ columns matches_2011).
  { apply (bool_decide_unpack _). vm_compute. exact I. }
  assert (Htable : rain_table rain_2011).
  { split; [reflexivity|]. split; [repeat constructor|].
    apply (bool_decide_unpack _). vm_compute. exact I. }
  assert (Honce : merge matches_2011 rain_2011 "Date" = Ok joined_once)
    by (vm_compute; reflexivity).
  repeat (split; [assumption|]).
  destruct (merge_twice_repeats_rain matches_2011 rain_2011 joined_once
              Hwf Hrain Htable Honce) as [_ Htwice].
  rewrite Htwice. vm_compute. reflexivity.
Defined.

(** ** The staging table *)






Lemma index_of_Some_elem (c : string) (cols : list string) (i : nat) :
  index_of c cols = Some i -> c ∈ cols.
Proof.
  revert i. induction cols as [|c' cols IH]; intros i; simpl; [discriminate|].
  destruct (String.eqb_spec c c') as [->|Hne]; [intros _; left|].
  destruct (index_of c cols) as [k|]; [|discriminate].
  intros _. right. apply (IH k eq_refl).
Qed.



(** ** Sorting, grouping, joining on an index *)

Lemma insert_sorted_Permutation {A} (leb : A -> A -> bool) (x : A) (l : list A) :
  insert_sorted leb x l ≡ₚ x :: l.
Proof.
  induction l as [|y l IH]; simpl; [reflexivity|].
  destruct (leb x y); [reflexivity|].
  rewrite IH. apply perm_swap.
Qed.

Lemma sort_by_Permutation {A} (leb : A -> A -> bool) (l : list A) :
  sort_by leb l ≡ₚ l.
Proof.
  induction l as [|x l IH]; simpl; [reflexivity|].
  rewrite insert_sorted_Permutation, IH. reflexivity.
Qed.

Section Sorted.
Context {A : Type} (leb : A -> A -> bool).
Hypothesis leb_total : forall x y, leb x y = true \/ leb y x = true.

Lemma insert_sorted_Sorted (x : A) (l : list A) :
  Sorted (fun a b => leb a b = true) l ->
  Sorted (fun a b => leb a b = true) (insert_sorted leb x l).
Proof.
  induction l as [|y l IH]; intros Hs; simpl.
  - repeat constructor.
  - destruct (leb x y) eqn:Hxy.
    + constructor; [exact Hs|]. constructor. exact Hxy.
    + apply Sorted_inv in Hs as [Hs Hhd].
      constructor; [apply IH, Hs|].
      destruct l as [|z l]; simpl.
      * constructor. destruct (leb_total x y) as [H|H]; [congruence|exact H].
      * destruct (leb x z).
        -- constructor. destruct (leb_total x y) as [H|H]; [congruence|exact H].
        -- constructor. inversion Hhd; assumption.
Qed.

Lemma sort_by_Sorted (l : list A) :
  Sorted (fun a b => leb a b = true) (sort_by leb l).
Proof.
  induction l as [|x l IH]; simpl; [constructor|].
  apply insert_sorted_Sorted, IH.
Qed.
End Sorted.

(** Looking a key up in a frame indexed by pairwise different keys. *)
Lemma flat_map_lookup {A C} (key : A -> string) (mk : string -> A)
  (F : A -> list C) (keys : list string) (t : string) :
  (forall k, key (mk k) = k) ->
  NoDup keys ->
  flat_map (fun a => if bool_decide (t = key a) then F a else []) (map mk keys)
  = if bool_decide (t ∈ keys) then F (mk t) else [].
Proof.
  intros Hkey. induction keys as [|k keys IH]; intros Hnd; simpl; [reflexivity|].
  apply NoDup_cons in Hnd as [Hk Hnd]. rewrite IH by exact Hnd. rewrite Hkey.
  destruct (decide (t = k)) as [->|Hne].
  - rewrite bool_decide_eq_true_2 by reflexivity.
    rewrite (bool_decide_eq_false_2 (k ∈ keys)) by exact Hk.
    rewrite bool_decide_eq_true_2 by left. apply app_nil_r.
  - rewrite bool_decide_eq_false_2 by exact Hne. simpl.
    destruct (decide (t ∈ keys)) as [Hin|Hin].
    + rewrite !bool_decide_eq_true_2; [reflexivity|right; exact Hin|exact Hin].
    + rewrite !bool_decide_eq_false_2; [reflexivity| |exact Hin].
      intros H. apply elem_of_cons in H as [H|H]; contradiction.
Qed.

Lemma merge_index_keyed {A B} (f : string -> A) (g : string -> B)
  (lkeys rkeys : list string) :
  NoDup rkeys ->
  merge_index (map (fun k => (k, f k)) lkeys) (map (fun k => (k, g k)) rkeys)
  = map (fun k => (k, (f k, g k))) (filter (fun k => k ∈ rkeys) lkeys).
Proof.
  intros Hnd. unfold merge_index.
  induction lkeys as [|k lkeys IH]; simpl; [reflexivity|].
  rewrite IH.
  rewrite (flat_map_lookup fst (fun k => (k, g k))
             (fun rb => [(k, (f k, rb.2))]) rkeys k (fun _ => eq_refl) Hnd).
  rewrite filter_cons. destruct (decide (k ∈ rkeys)) as [Hin|Hin].
  - rewrite bool_decide_eq_true_2 by exact Hin. reflexivity.
  - rewrite bool_decide_eq_false_2 by exact Hin. reflexivity.
Qed.

Lemma omap_map_Some {A B C} (f : B -> option C) (g : A -> B) (h : A -> C)
  (l : list A) :
  (forall a, a ∈ l -> f (g a) = Some (h a)) -> omap f (map g l) = map h l.
Proof.
  induction l as [|a l IH]; intros H; [reflexivity|].
  change (omap f (map g (a :: l)))
    with (match f (g a) with
          | Some y => y :: omap f (map g l)
          | None => omap f (map g l)
          end).
  rewrite H by left. rewrite IH; [reflexivity|].
  intros b Hb. apply H. right. exact Hb.
Qed.

Lemma filter_sublist_id (keys sub : list string) :
  (forall k, k ∈ sub -> k ∈ keys) -> filter (fun k => k ∈ keys) sub = sub.
Proof.
  induction sub as [|k sub IH]; intros H; [reflexivity|].
  rewrite filter_cons. destruct (decide (k ∈ keys)) as [Hin|Hin].
  - rewrite IH; [reflexivity|]. intros k' Hk'. apply H. right. exact Hk'.
  - exfalso. apply Hin, H. left.
Qed.

(** ** The in-memory aggregator, team by team *)

Lemma group_keys_NoDup (key : Match -> string) (ms : list Match) :
  NoDup (group_keys key ms).
Proof.
  unfold group_keys. rewrite sort_by_Permutation. apply NoDup_remove_dups.
Qed.

Lemma elem_of_map_key (key : Match -> string) (ms : list Match) (t : string) :
  t ∈ map key ms <-> exists m, m ∈ ms /\ key m = t.
Proof.
  split.
  - intros H. apply list_elem_of_fmap in H as (m & -> & Hm). eauto.
  - intros (m & Hm & <-). apply list_elem_of_fmap. eauto.
Qed.

Lemma group_keys_elem (key : Match -> string) (ms : list Match) (t : string) :
  t ∈ group_keys key ms <-> exists m, m ∈ ms /\ key m = t.
Proof.
  unfold group_keys. rewrite sort_by_Permutation, elem_of_remove_dups.
  apply elem_of_map_key.
Qed.

Lemma group_nonempty (key : Match -> string) (ms : list Match) (t : string) :
  (exists m, m ∈ ms /\ key m = t) ->
  exists m g, group key t ms = m :: g /\ key m = t.
Proof.
  intros (m & Hm & Hk).
  assert (Hin : m ∈ group key t ms).
  { unfold group. apply list_elem_of_filter. split; assumption. }
  destruct (group key t ms) as [|m' g] eqn:Hg; [inversion Hin|].
  exists m', g. split; [reflexivity|].
  assert (Hin' : m' ∈ group key t ms) by (rewrite Hg; left).
  unfold group in Hin'. apply list_elem_of_filter in Hin' as [H _]. exact H.
Qed.

Lemma home_stats_eq (ms : list Match) :
  home_stats ms
  = map (fun t => (t, home_stats_of ms t)) (group_keys HomeTeam ms).
Proof. unfold home_stats, groupby. rewrite map_map. reflexivity. Qed.

Lemma away_stats_eq (ms : list Match) :
  away_stats ms
  = map (fun t => (t, away_stats_of ms t)) (group_keys AwayTeam ms).
Proof. unfold away_stats, groupby. rewrite map_map. reflexivity. Qed.

Lemma home_max_eq (ms : list Match) :
  home_max ms = map (fun t => (t, home_max_of ms t)) (group_keys HomeTeam ms).
Proof.
  unfold home_max, groupby. apply omap_map_Some. intros t Ht.
  apply group_keys_elem, group_nonempty in Ht as (m & g & Hg & _).
  unfold home_max_of, group in *. simpl. rewrite Hg. reflexivity.
Qed.

Lemma pandas_stats_eq (ms : list Match) :
  pandas_stats ms
  = map (pandas_record ms)
        (filter (fun t => t ∈ group_keys AwayTeam ms) (group_keys HomeTeam ms)).
Proof.
  unfold pandas_stats.
  rewrite home_stats_eq, away_stats_eq, home_max_eq.
  rewrite merge_index_keyed by apply group_keys_NoDup.
  rewrite map_map. simpl.
  rewrite (merge_index_keyed
             (fun t => agg_row (home_stats_of ms t, away_stats_of ms t))
             (home_max_of ms)) by apply group_keys_NoDup.
  rewrite filter_sublist_id.
  - rewrite map_map. reflexivity.
  - intros k Hk. apply list_elem_of_filter in Hk as [_ Hk]. exact Hk.
Qed.

(** ** Sums over a group are counts over the table *)

Lemma count_cons (P : Match -> bool) (m : Match) (ms : list Match) :
  count P (m :: ms) = (Z.b2z (P m) + count P ms)%Z.
Proof.
  unfold count. simpl. destruct (P m); simpl length; simpl Z.b2z; lia.
Qed.

Lemma count_nonneg (P : Match -> bool) (ms : list Match) : (0 <= count P ms)%Z.
Proof. unfold count. lia. Qed.

Lemma count_le (P Q : Match -> bool) (ms : list Match) :
  (forall m, P m = true -> Q m = true) -> (count P ms <= count Q ms)%Z.
Proof.
  intros H. induction ms as [|m ms IH]; [reflexivity|].
  rewrite !count_cons. specialize (H m).
  destruct (P m), (Q m); simpl; lia.
Qed.

Lemma count_ext (P Q : Match -> bool) (ms : list Match) :
  (forall m, P m = Q m) -> count P ms = count Q ms.
Proof.
  intros H. unfold count. rewrite (List.filter_ext P Q H). reflexivity.
Qed.

Lemma sum_of_group (key : Match -> string) (f : Match -> Z) (t : string)
  (ms : list Match) :
  sum_of f (group key t ms)
  = sum_of (fun m => if bool_decide (key m = t) then f m else 0) ms.
Proof.
  unfold group. induction ms as [|m ms IH]; [reflexivity|].
  rewrite filter_cons. simpl. rewrite <- IH.
  destruct (decide (key m = t)) as [H|H].
  - rewrite bool_decide_eq_true_2 by exact H. reflexivity.
  - rewrite bool_decide_eq_false_2 by exact H. reflexivity.
Qed.

Lemma sum_of_ext (f g : Match -> Z) (ms : list Match) :
  (forall m, f m = g m) -> sum_of f ms = sum_of g ms.
Proof.
  intros H. induction ms as [|m ms IH]; simpl; [reflexivity|].
  rewrite H, IH. reflexivity.
Qed.

Lemma sum_of_b2z (P : Match -> bool) (ms : list Match) :
  sum_of (fun m => Z.b2z (P m)) ms = count P ms.
Proof.
  induction ms as [|m ms IH]; [reflexivity|].
  rewrite count_cons. simpl. rewrite IH. reflexivity.
Qed.

Lemma count_group (key : Match -> string) (P : Match -> bool) (t : string)
  (ms : list Match) :
  sum_of (fun m => Z.b2z (P m)) (group key t ms)
  = count (fun m => bool_decide (key m = t) && P m) ms.
Proof.
  rewrite sum_of_group, <- sum_of_b2z. apply sum_of_ext. intros m.
  destruct (bool_decide (key m = t)); reflexivity.
Qed.

(** ** Machine sums *)

Lemma wrap64_add (a b : Z) : wrap64 (wrap64 a + wrap64 b) = wrap64 (a + b).
Proof.
  unfold wrap64. f_equal.
  replace ((a + 2 ^ 63) mod 2 ^ 64 - 2 ^ 63
           + ((b + 2 ^ 63) mod 2 ^ 64 - 2 ^ 63) + 2 ^ 63)%Z
    with ((a + 2 ^ 63) mod 2 ^ 64 + (b + 2 ^ 63) mod 2 ^ 64 - 2 ^ 63)%Z by lia.
  rewrite Zminus_mod, <- Zplus_mod, <- Zminus_mod. f_equal. lia.
Qed.

Lemma wrap64_in_int64 (z : Z) : in_int64 z = true -> wrap64 z = z.
Proof.
  unfold in_int64, wrap64. rewrite andb_true_iff, Z.leb_le, Z.ltb_lt.
  intros [H1 H2]. rewrite Z.mod_small by lia. lia.
Qed.

Lemma in_int64_abs (z : Z) : (Z.abs z < 2 ^ 63)%Z -> in_int64 z = true.
Proof.
  unfold in_int64. rewrite andb_true_iff, Z.leb_le, Z.ltb_lt. lia.
Qed.









Lemma goals_bounded_int64_goals (ms : list Match) :
  goals_bounded ms -> int64_goals ms.
Proof.
  unfold goals_bounded, int64_goals.
  induction ms as [|m ms IH]; intros Hb; constructor; simpl in Hb.
  - assert (H0 : (0 <= sum_of (fun m => Z.abs (FTHG m) + Z.abs (FTAG m)) ms)%Z).
    { clear. induction ms as [|m ms IH]; simpl; lia. }
    split; apply in_int64_abs; lia.
  - apply IH. lia.
Qed.

(** ** The query, team by team *)








(** ** The records and the per-team quantities *)

Lemma pandas_record_wins (ms : list Match) (t : string) :
  Pd.wins (pandas_record ms t) = total_wins t ms.
Proof.
  unfold pandas_record, agg_row, total_wins. simpl.
  rewrite !count_group. reflexivity.
Qed.

Lemma pandas_record_goals (ms : list Match) (t : string) :
  Pd.goals (pandas_record ms t) = wrap64 (total_goals t ms).
Proof.
  unfold pandas_record, agg_row, total_goals. simpl. unfold int64_sum.
  rewrite wrap64_add, !sum_of_group. reflexivity.
Qed.

Lemma pandas_record_rain_win_pct (ms : list Match) (t : string) :
  Pd.rain_win_pct (pandas_record ms t)
  = np_round (series_div (rain_wins t ms) (rain_games t ms)) 3.
Proof.
  unfold pandas_record, agg_row, rain_wins, rain_games. simpl.
  rewrite !count_group. unfold rain_home_win, rain_away_win, home_win, away_win.
  rewrite (Z.add_comm (count (fun m => bool_decide (AwayTeam m = t) && rain m) ms)).
  unfold is_home, is_away.
  f_equal; f_equal; f_equal; apply count_ext; intros m;
    rewrite ?andb_assoc; reflexivity.
Qed.




(** ** Rounding *)

Lemma rint_bounds (y : Q) :
  (y - (1 # 2) <= inject_Z (rint y))%Q /\ (inject_Z (rint y) <= y + (1 # 2))%Q.
Proof.
  destruct y as [n d]. unfold rint. simpl Qnum. simpl Qden.
  pose proof (Z.div_mod n (Zpos d) ltac:(lia)) as Hdm.
  pose proof (Z.mod_pos_bound n (Zpos d) ltac:(lia)) as Hr.
  set (f := (n / Zpos d)%Z) in *. set (r := (n mod Zpos d)%Z) in *.
  destruct (Z.compare_spec (2 * r) (Zpos d)) as [He|Hl|Hg];
    [destruct (Z.even f)| |];
    unfold Qle, Qminus, Qplus, Qopp, inject_Z; simpl;
    rewrite ?Pos2Z.inj_mul; split; nia.
Qed.


Lemma Qmake_inject_Z (k : Z) (P : positive) :
  (Qmake k P == inject_Z k * Qmake 1 P)%Q.
Proof. unfold Qeq, Qmult, inject_Z. simpl. lia. Qed.

Lemma np_round_3_rounded (r r' : Q) :
  (r == r')%Q ->
  exists x, np_round (Finite r) 3 = Finite x /\ rounded_to 3 x r'.
Proof.
  intros Heq. eexists. split; [reflexivity|].
  unfold rounded_to. change (pow10 3) with 1000%positive.
  split; [eexists; apply Qred_correct|].
  rewrite Qred_correct, (Qmake_inject_Z (rint (r * (1000 # 1))) 1000).
  destruct (rint_bounds (r * (1000 # 1))) as [H1 H2].
  generalize dependent (inject_Z (rint (r * (1000 # 1)))). intros K H1 H2.
  change (2 * 1000)%positive with 2000%positive.
  split; lra.
Qed.


(** A value rounded from a ratio between 0 and 1 is between 0 and 1. *)
Lemma rounded_to_3_unit (x r : Q) :
  rounded_to 3 x r -> (0 <= r)%Q -> (r <= 1)%Q -> (0 <= x)%Q /\ (x <= 1)%Q.
Proof.
  unfold rounded_to. change (pow10 3) with 1000%positive.
  intros ([k Hk] & Hlo & Hhi) H0 H1.
  change (2 * 1000)%positive with 2000%positive in Hlo, Hhi.
  rewrite Hk in Hlo, Hhi |- *.
  assert (Hk0 : (0 <= k)%Z).
  { assert (H : (- (1 # 2000) <= k # 1000)%Q) by lra.
    unfold Qle in H. simpl in H. lia. }
  assert (Hk1 : (k <= 1000)%Z).
  { assert (H : (k # 1000 <= 1 + (1 # 2000))%Q) by lra.
    unfold Qle in H. simpl in H. lia. }
  unfold Qle. simpl. split; lia.
Qed.

Lemma Sorted_weaken {A} (R S : A -> A -> Prop) (l : list A) :
  (forall a b, R a b -> S a b) -> Sorted R l -> Sorted S l.
Proof.
  intros H. induction 1 as [|a l _ IH Hhd]; constructor; [exact IH|].
  destruct Hhd; constructor. apply H. assumption.
Qed.


(** ** What the two aggregators return *)

Lemma mapM_Ok_weaken {A B C} (f : A -> result B) (g : A -> result C)
  (l : list A) (ys : list B) :
  (forall x y, f x = Ok y -> exists z, g x = Ok z) ->
  mapM f l = Ok ys -> exists zs, mapM g l = Ok zs.
Proof.
  intros Hfg. revert ys. induction l as [|x l IH]; intros ys H; simpl in *.
  - eauto.
  - destruct (f x) as [y|] eqn:Hx; [|discriminate]. simpl in H.
    destruct (mapM f l) as [ys'|]; [|discriminate].
    destruct (Hfg x y Hx) as [z ->]. destruct (IH ys' eq_refl) as [zs ->].
    simpl. eauto.
Qed.

Ltac cell_cases H :=
  cbv beta in H;
  repeat match type of H with
         | context [as_str ?v] => destruct v; simpl in H; try discriminate H
         | context [as_int ?v] => destruct v; simpl in H; try discriminate H
         | context [as_bool ?v] => destruct v; simpl in H; try discriminate H
         end.

(** On a frame that reads as match rows, the statements of the in-memory
    aggregator find every column and every cell they touch. *)
Lemma pandas_matches_enriched (df : DataFrame) (ms : list Match) :
  enriched df ms -> pandas_matches df = Ok ms.
Proof.
  unfold enriched, to_matches, pandas_matches, column_index, select_Season_Div.
  destruct (index_of "FTHG" (columns df)) as [iHG|]; [|discriminate].
  destruct (index_of "FTAG" (columns df)) as [iAG|]; [|discriminate].
  destruct (index_of "rain" (columns df)) as [iR|]; [|discriminate].
  destruct (index_of "HomeTeam" (columns df)) as [iH|]; [|discriminate].
  destruct (index_of "AwayTeam" (columns df)) as [iA|]; [|discriminate].
  destruct (index_of "Season" (columns df)) as [iS|]; [|discriminate].
  destruct (index_of "Div" (columns df)) as [iD|]; [|discriminate].
  simpl. intros H.
  assert (H1 : exists zs,
    mapM (fun r => _ <-? as_int (nth iHG r VNone) ;; as_int (nth iAG r VNone))
         (rows df) = Ok zs).
  { eapply mapM_Ok_weaken; [|exact H].
    intros r y Hr. cell_cases Hr. simpl. eauto. }
  assert (H2 : exists zs,
    mapM (fun r => as_bool (nth iR r VNone)) (rows df) = Ok zs).
  { eapply mapM_Ok_weaken; [|exact H].
    intros r y Hr. cell_cases Hr. simpl. eauto. }
  assert (H3 : exists zs,
    mapM (fun r => as_str (nth iH r VNone)) (rows df) = Ok zs).
  { eapply mapM_Ok_weaken; [|exact H].
    intros r y Hr. cell_cases Hr. simpl. eauto. }
  assert (H4 : exists zs,
    mapM (fun r => as_str (nth iA r VNone)) (rows df) = Ok zs).
  { eapply mapM_Ok_weaken; [|exact H].
    intros r y Hr. cell_cases Hr. simpl. eauto. }
  destruct H1 as [? ->], H2 as [? ->], H3 as [? ->], H4 as [? ->].
  simpl. exact H.
Qed.

Lemma calculate_aggregate_stats_pandas_enriched (df : DataFrame)
  (ms : list Match) :
  enriched df ms -> calculate_aggregate_stats_pandas df = Ok (pandas_stats ms).
Proof.
  intros H. unfold calculate_aggregate_stats_pandas.
  rewrite (pandas_matches_enriched df ms H). reflexivity.
Qed.

Lemma pandas_stats_elem (ms : list Match) (p : Pd.t) :
  p ∈ pandas_stats ms ->
  exists t, p = pandas_record ms t
    /\ (exists h, h ∈ ms /\ HomeTeam h = t)
    /\ (exists a, a ∈ ms /\ AwayTeam a = t).
Proof.
  rewrite pandas_stats_eq. intros H.
  apply list_elem_of_fmap in H as (t & -> & Ht).
  apply list_elem_of_filter in Ht as [Ha Hh].
  apply group_keys_elem in Ha, Hh. exists t. auto.
Qed.

Lemma pandas_stats_cover (ms : list Match) (t : string) :
  (exists h, h ∈ ms /\ HomeTeam h = t) ->
  (exists a, a ∈ ms /\ AwayTeam a = t) ->
  pandas_record ms t ∈ pandas_stats ms.
Proof.
  intros Hh Ha. rewrite pandas_stats_eq.
  apply list_elem_of_fmap. exists t. split; [reflexivity|].
  apply list_elem_of_filter. rewrite !group_keys_elem. auto.
Qed.






Lemma rain_wins_bounds (t : string) (ms : list Match) :
  (0 <= rain_wins t ms <= rain_games t ms)%Z.
Proof.
  unfold rain_wins, rain_games. split.
  - pose proof (count_nonneg
      (fun m => is_home t m && (FTHG m >? FTAG m)%Z && rain m) ms).
    pose proof (count_nonneg
      (fun m => is_away t m && (FTAG m >? FTHG m)%Z && rain m) ms).
    lia.
  - apply Z.add_le_mono; apply count_le; intros m;
      destruct (is_home t m), (is_away t m), (rain m); simpl;
      rewrite ?andb_false_r; congruence.
Qed.


Lemma total_wins_le_played (t : string) (ms : list Match) :
  (total_wins t ms <= matches_played t ms)%Z.
Proof.
  unfold total_wins, matches_played.
  induction ms as [|m ms IH]; [reflexivity|].
  rewrite !count_cons.
  destruct (is_home t m), (is_away t m); simpl;
    destruct (Z.gtb_spec (FTHG m) (FTAG m)), (Z.gtb_spec (FTAG m) (FTHG m));
    simpl; lia.
Qed.

Lemma rain_ratio_unit (t : string) (ms : list Match) :
  (0 < rain_games t ms)%Z ->
  (0 <= rain_ratio t ms)%Q /\ (rain_ratio t ms <= 1)%Q.
Proof.
  intros Hpos. pose proof (rain_wins_bounds t ms) as [H0 H1].
  unfold rain_ratio.
  assert (Hq : (0 < Qmake (rain_games t ms) 1)%Q)
    by (unfold Qlt; simpl; lia).
  split.
  - apply Qle_shift_div_l; [exact Hq|]. unfold Qle. simpl. lia.
  - apply Qle_shift_div_r; [exact Hq|]. unfold Qle. simpl. lia.
Qed.

Lemma pandas_rain_win_pct_cases (ms : list Match) (t : string) :
  (rain_games t ms = 0%Z -> Pd.rain_win_pct (pandas_record ms t) = NaN)
  /\ (rain_games t ms <> 0%Z ->
      exists x, Pd.rain_win_pct (pandas_record ms t) = Finite x
                /\ rounded_to 3 x (rain_ratio t ms)).
Proof.
  rewrite pandas_record_rain_win_pct. unfold series_div.
  pose proof (rain_wins_bounds t ms) as Hb. split; intros Hg.
  - rewrite Hg in *. assert (rain_wins t ms = 0%Z) as -> by lia. reflexivity.
  - apply Z.eqb_neq in Hg. rewrite Hg.
    apply np_round_3_rounded. apply Qred_correct.
Qed.


(** ** The worked example and the empty table *)

(** C3: on the two matches of the example the in-memory aggregator gives
    team A two wins, five goals and a rain win percentage of 1.0 (and
    team B no win, one goal and 0.0), whatever seasons and divisions the
    two rows carry. *)
Theorem calculate_aggregate_stats_pandas_two_matches :
  forall (s1 s2 : Z) (d1 d2 : string),
    calculate_aggregate_stats_pandas (two_matches s1 s2 d1 d2)
    = Ok [Pd.mk "A" 2 5 (Finite 1) s1 d1; Pd.mk "B" 0 1 (Finite 0) s2 d2].
Proof. intros. vm_compute. reflexivity. Qed.

(** C8: on a table without rows that has the columns the aggregator
    reads, the in-memory aggregator returns the empty list of records. *)
Theorem calculate_aggregate_stats_pandas_empty :
  forall (cols : list string),
    Forall (fun c => c ∈ cols) aggregator_columns ->
    calculate_aggregate_stats_pandas (mkDataFrame cols []) = Ok [].
Proof.
  intros cols Hcols. unfold aggregator_columns in Hcols.
  repeat (apply Forall_cons in Hcols as [?%index_of_elem Hcols]).
  repeat match goal with H : exists i, _ |- _ => destruct H as [? H] end.
  unfold calculate_aggregate_stats_pandas, pandas_matches, column_index,
    select_Season_Div. simpl.
  repeat match goal with
         | H : index_of _ _ = Some _ |- _ => rewrite H; clear H; simpl
         end.
  reflexivity.
Qed.

Lemma calculate_aggregate_stats_pandas_empty_witness :
  Forall (fun c => c ∈ enriched_columns) aggregator_columns
  /\ calculate_aggregate_stats_pandas (mkDataFrame enriched_columns []) = Ok [].
Proof.
  assert (H : Forall (fun c => c ∈ enriched_columns) aggregator_columns).
  { apply (bool_decide_unpack _). vm_compute. exact I. }
  split; [exact H|].
  apply (calculate_aggregate_stats_pandas_empty enriched_columns H).
Defined.

(** ** Rounding and order of the results *)




(** ** The staging table, on success and on failure *)

(** The sum of the home goals of A overflows: the query fails and the
    staging table stays. *)
Lemma temp_rain_stats_left_when_sum_overflows :
  enriched big_matches big_matches_rows
  /\ (calculate_aggregate_stats_sqlite (fun _ => "") big_matches
        "database.sqlite" world_2011).2
     = Raise (OperationalError "integer overflow")
  /\ table_of (calculate_aggregate_stats_sqlite (fun _ => "") big_matches
                "database.sqlite" world_2011).1
              "database.sqlite" "temp_rain_stats"
     = Some big_matches.
Proof. split; [|split]; vm_compute; reflexivity. Qed.



(** ** Bounds *)

(** C7: in every record of the in-memory aggregator the wins do not
    exceed the matches the team played, and when the team has a rain
    game its [rain_win_pct] is a number between 0 and 1. *)
Theorem wins_and_rain_win_pct_bounds :
  forall (df : DataFrame) (ms : list Match),
    enriched df ms ->
    exists ps,
      calculate_aggregate_stats_pandas df = Ok ps
      /\ forall p, p ∈ ps ->
           (Pd.wins p <= matches_played (Pd.team_name p) ms)%Z
           /\ ((0 < rain_games (Pd.team_name p) ms)%Z ->
               exists x, Pd.rain_win_pct p = Finite x
                         /\ (0 <= x)%Q /\ (x <= 1)%Q).
Proof.
  intros df ms Hdf. exists (pandas_stats ms).
  split; [apply calculate_aggregate_stats_pandas_enriched, Hdf|].
  intros p Hp. apply pandas_stats_elem in Hp as (t & -> & _).
  change (Pd.team_name (pandas_record ms t)) with t. split.
  - rewrite pandas_record_wins. apply total_wins_le_played.
  - intros Hpos.
    destruct (pandas_rain_win_pct_cases ms t) as [_ Hcase].
    destruct Hcase as (x & Hx & Hround); [lia|].
    exists x. split; [exact Hx|].
    destruct (rain_ratio_unit t ms Hpos) as [H0 H1].
    apply (rounded_to_3_unit x _ Hround H0 H1).
Qed.

Lemma wins_and_rain_win_pct_bounds_witness :
  enriched (two_matches 2020 2020 "E0" "E0") two_matches_rows
  /\ exists ps,
       calculate_aggregate_stats_pandas (two_matches 2020 2020 "E0" "E0") = Ok ps
       /\ forall p, p ∈ ps ->
            (Pd.wins p <= matches_played (Pd.team_name p) two_matches_rows)%Z.
Proof.
  assert (H : enriched (two_matches 2020 2020 "E0" "E0") two_matches_rows)
    by (vm_compute; reflexivity).
  split; [exact H|].
  destruct (wins_and_rain_win_pct_bounds _ _ H) as (ps & Hps & Hall).
  exists ps. split; [exact Hps|]. intros p Hp. apply (Hall p Hp).
Defined.

(** ** The two aggregators agree *)





(** When each of the two sums fits int64 and their sum does not, both
    aggregators return a record for the team and the goals differ: the
    frame addition wraps around, the query's addition turns to REAL, and
    with it the whole column [GF] of the frame read from the query. *)
Lemma goals_wrap_in_the_frame_and_turn_real_in_the_query :
  (ps <-? calculate_aggregate_stats_pandas half_matches ;;
   Ok (map (fun p => (Pd.team_name p, Pd.goals p)) ps))
  = Ok [("A", -9223372036854775808); ("B", 0)]
  /\ (ss <-? (calculate_aggregate_stats_sqlite (fun _ => "") half_matches
               "database.sqlite" world_2011).2 ;;
      Ok (map (fun s => (Sq.Club s, Sq.GF s)) ss))
     = Ok [("A", SReal 9223372036854775808); ("B", SReal 0)].
Proof. split; vm_compute; reflexivity. Qed.



(** * Further properties *)

(** ** Reading the key *)

Lemma lstrip_all_space_app (pre s : string) :
  all_space pre = true -> lstrip (pre +:+ s) = lstrip s.
Proof.
  induction pre as [|c pre IH]; intros H; [reflexivity|].
  simpl in H. apply andb_true_iff in H as [Hc Hpre].
  change (lstrip (String c (pre +:+ s)) = lstrip s).
  simpl. rewrite Hc. apply IH, Hpre.
Qed.

Lemma lstrip_no_space (s : string) :
  starts_with_space s = false -> lstrip s = s.
Proof. destruct s as [|c s]; simpl; [reflexivity|]. intros ->. reflexivity. Qed.

Lemma rstrip_all_space (s : string) : all_space s = true -> rstrip s = EmptyString.
Proof.
  induction s as [|c s IH]; intros H; [reflexivity|].
  simpl in H. apply andb_true_iff in H as [Hc Hs].
  simpl. rewrite (IH Hs), Hc. reflexivity.
Qed.

Lemma rstrip_app_all_space (key post : string) :
  all_space post = true -> ends_with_space key = false ->
  rstrip (key +:+ post) = key.
Proof.
  intros Hpost. induction key as [|c key IH]; intros Hend.
  - apply rstrip_all_space, Hpost.
  - change (rstrip (String c (key +:+ post)) = String c key). simpl.
    destruct key as [|c' key].
    + change (EmptyString +:+ post) with post.
      rewrite (rstrip_all_space post Hpost). simpl in Hend. rewrite Hend.
      reflexivity.
    + rewrite IH by exact Hend. reflexivity.
Qed.

Lemma lstrip_decompose (s : string) :
  exists pre, s = pre +:+ lstrip s /\ all_space pre = true
              /\ starts_with_space (lstrip s) = false.
Proof.
  induction s as [|c s (pre & Hs & Hpre & Hstart)].
  - exists EmptyString. auto.
  - simpl. destruct (isspace c) eqn:Hc.
    + exists (String c pre). split; [|split].
      * change (String c s = String c (pre +:+ lstrip s)). rewrite <- Hs.
        reflexivity.
      * simpl. rewrite Hc. exact Hpre.
      * exact Hstart.
    + exists EmptyString. split; [reflexivity|]. split; [reflexivity|exact Hc].
Qed.

Lemma rstrip_decompose (s : string) :
  exists post, s = rstrip s +:+ post /\ all_space post = true
               /\ ends_with_space (rstrip s) = false
               /\ (starts_with_space s = false ->
                   starts_with_space (rstrip s) = false).
Proof.
  induction s as [|c s (post & Hs & Hpost & Hend & _)].
  - exists EmptyString. auto.
  - simpl. destruct (rstrip s) as [|c' r] eqn:Hr.
    + destruct (isspace c) eqn:Hc.
      * exists (String c post). split; [|split; [|split]].
        -- change (EmptyString +:+ post) with post in Hs. rewrite <- Hs.
           reflexivity.
        -- simpl. rewrite Hc. exact Hpost.
        -- reflexivity.
        -- discriminate.
      * exists post. split; [|split; [|split]].
        -- change (String c s = String c (EmptyString +:+ post)).
           rewrite <- Hs. reflexivity.
        -- exact Hpost.
        -- exact Hc.
        -- intros _. exact Hc.
    + exists post. split; [|split; [|split]].
      * change (String c s = String c (String c' r +:+ post)).
        rewrite <- Hs. reflexivity.
      * exact Hpost.
      * exact Hend.
      * intros H. exact H.
Qed.

(** X1: the key that [get_api_key] returns is the text of the file
    without the whitespace around it: when the file holds a key with no
    whitespace at its ends, between any whitespace, the key is what comes
    back. *)
Theorem get_api_key_strips_surrounding_whitespace :
  forall (fs : gmap string string) (path pre key post : string),
    fs !! path = Some (pre +:+ key +:+ post) ->
    ascii_text (pre +:+ key +:+ post) = true ->
    all_space pre = true ->
    all_space post = true ->
    starts_with_space key = false ->
    ends_with_space key = false ->
    get_api_key fs path = inr key.
Proof.
  intros fs path pre key post Hfile _ Hpre Hpost Hstart Hend.
  unfold get_api_key. rewrite Hfile. f_equal. unfold strip.
  rewrite (lstrip_all_space_app pre _ Hpre).
  destruct key as [|c key].
  - change (EmptyString +:+ post) with post.
    apply rstrip_all_space.
    clear -Hpost. induction post as [|c post IH]; [reflexivity|].
    simpl in Hpost. apply andb_true_iff in Hpost as [Hc Hpost].
    simpl. rewrite Hc. apply IH, Hpost.
  - rewrite lstrip_no_space by exact Hstart.
    apply rstrip_app_all_space; assumption.
Qed.

Lemma get_api_key_strips_surrounding_whitespace_witness :
  get_api_key secret_files ".secret" = inr "0123abcd".
Proof.
  apply (get_api_key_strips_surrounding_whitespace secret_files ".secret"
           (String "009" (String "032" EmptyString)) "0123abcd"
           (String "010" EmptyString)); vm_compute; reflexivity.
Defined.

(** X2: whatever an ASCII file holds, the key read from it neither starts
    nor ends with whitespace, and the file is that key with whitespace,
    and nothing else, before and after it. *)
Theorem get_api_key_result_is_trimmed :
  forall (fs : gmap string string) (path content key : string),
    fs !! path = Some content ->
    ascii_text content = true ->
    get_api_key fs path = inr key ->
    starts_with_space key = false
    /\ ends_with_space key = false
    /\ exists pre post,
         content = pre +:+ key +:+ post
         /\ all_space pre = true /\ all_space post = true.
Proof.
  intros fs path content key Hfile _ Hkey.
  unfold get_api_key in Hkey. rewrite Hfile in Hkey. injection Hkey as <-.
  unfold strip.
  destruct (lstrip_decompose content) as (pre & Hc & Hpre & Hstart).
  destruct (rstrip_decompose (lstrip content)) as (post & Hl & Hpost & Hend & Hs).
  split; [apply Hs, Hstart|]. split; [exact Hend|].
  exists pre, post. split; [|split; assumption].
  rewrite <- Hl. exact Hc.
Qed.

Lemma get_api_key_result_is_trimmed_witness :
  starts_with_space "0123abcd" = false /\ ends_with_space "0123abcd" = false.
Proof.
  destruct (get_api_key_result_is_trimmed secret_files ".secret"
              (String "009" (String "032" ("0123abcd" +:+ String "010" EmptyString)))
              "0123abcd") as (H1 & H2 & _);
    [vm_compute; reflexivity ..|].
  split; assumption.
Defined.

(** ** Reading a season *)

Lemma get_season_data_existing (database : string) (season : Z) (w : World)
  (db : gmap string DataFrame) :
  files w !! database = Some db ->
  get_season_data database season w
  = (w, t <-? select_season db season ;; frame_of_cursor t).
Proof.
  intros Hdb. unfold get_season_data, bind, connect, execute_query, lift.
  rewrite Hdb. simpl. rewrite Hdb. simpl.
  destruct (select_season db season); reflexivity.
Qed.

Lemma get_season_data_missing (database : string) (season : Z) (w : World) :
  files w !! database = None ->
  get_season_data database season w
  = (mkWorld (<[database := ∅]> (files w)) (darksky w) (requests w),
     Raise (OperationalError "no such table: Matches")).
Proof.
  intros Hdb. unfold get_season_data, bind, connect, execute_query, lift.
  rewrite Hdb. simpl. rewrite lookup_insert_eq. reflexivity.
Qed.

Lemma get_season_data_world (database : string) (season : Z) (w : World) :
  let w' := (get_season_data database season w).1 in
  darksky w' = darksky w /\ requests w' = requests w
  /\ (forall db, files w !! database = Some db -> files w' = files w).
Proof.
  destruct (files w !! database) as [db|] eqn:Hdb.
  - rewrite (get_season_data_existing _ _ _ db Hdb). simpl. auto.
  - rewrite (get_season_data_missing _ _ _ Hdb). simpl.
    split; [reflexivity|]. split; [reflexivity|]. intros db H. discriminate.
Qed.







(** ** The weather client *)

Lemma get_weather_data_result (w : World) (password : string) (date : value) :
  (get_weather_data date password lat_default long_default w).2
  = match weather_of w password date with
    | Ok rain => Ok (date, rain)
    | Raise e => Raise e
    end.
Proof.
  unfold weather_of.
  destruct date as [ | |d| ]; try reflexivity. simpl.
  unfold bind, requests_get_json.
  destruct (darksky w _) as [j|]; [|reflexivity].
  unfold read_icon, lift, ret.
  destruct (json_key j "daily") as [daily|]; simpl; [|reflexivity].
  destruct (json_key daily "data") as [data|]; simpl; [|reflexivity].
  destruct (json_first data) as [day|]; simpl; [|reflexivity].
  destruct (json_get day "icon") as [icon|]; reflexivity.
Qed.

(** X5: when the service answers a request with a document whose
    [daily.data[0]] is an object, [get_weather_data] sends that one
    request and returns the date it was given with a rain flag that is
    true exactly when the object's [icon] is the string [rain]; a first
    data point without [icon] is a dry day, not an error. *)
Theorem get_weather_data_rain_iff_icon :
  forall (w : World) (password d : string) (j daily data : json)
         (day : list (string * json)),
    darksky w (forecast_url password lat_default long_default (d +:+ "T00:00:00"))
    = Some j ->
    json_key j "daily" = Ok daily ->
    json_key daily "data" = Ok data ->
    json_first data = Ok (JObj day) ->
    exists rain,
      get_weather_data (VStr d) password lat_default long_default w
      = (mkWorld (files w) (darksky w)
           (requests w
            ++ [forecast_url password lat_default long_default (d +:+ "T00:00:00")]),
         Ok (VStr d, rain))
      /\ (rain = true <-> assoc "icon" day = Some (JStr "rain")).
Proof.
  intros w password d j daily data day Hj Hdaily Hdata Hday.
  exists (is_rain (assoc "icon" day)). split.
  - unfold get_weather_data, bind, requests_get_json, lift, ret.
    rewrite Hj, Hdaily, Hdata, Hday. reflexivity.
  - unfold is_rain. destruct (assoc "icon" day) as [[ | | |s| | ]|];
      try (split; [discriminate|intros [=]]).
    destruct (String.eqb_spec s "rain") as [->|Hne].
    + split; reflexivity.
    + split; [discriminate|intros [= Hs]; contradiction].
Qed.

Lemma get_weather_data_rain_iff_icon_witness :
  exists rain,
    (get_weather_data (VStr "2011-08-05") "key" lat_default long_default
       world_2011).2 = Ok (VStr "2011-08-05", rain)
    /\ (rain = true <-> Some (JStr "rain") = Some (JStr "rain")).
Proof.
  destruct (get_weather_data_rain_iff_icon world_2011 "key" "2011-08-05"
              (icon_response "rain")
              (JObj [("data", JArr [JObj [("icon", JStr "rain")]])])
              (JArr [JObj [("icon", JStr "rain")]])
              [("icon", JStr "rain")])
    as (rain & Hrun & Hrain); [reflexivity ..|].
  exists rain. rewrite Hrun. split; [reflexivity|exact Hrain].
Defined.

(** ** Failing fast *)

Lemma rain_loop_fails (dates : list value) (password : string) :
  forall (data : list (list value)) (w : World),
    (exists d, d ∈ dates /\ ~ answered w password d) ->
    exists e, (rain_loop dates password data w).2 = Raise e.
Proof.
  induction dates as [|date dates IH]; intros data w (d & Hd & Hna).
  - inversion Hd.
  - simpl. unfold bind.
    pose proof (get_weather_data_result w password date) as Hres.
    pose proof (get_weather_data_world w password date) as (_ & Hsvc & _).
    destruct (get_weather_data date password lat_default long_default w)
      as [w1 [dr|e]]; simpl in *; [|eauto].
    apply IH. exists d. split.
    + apply elem_of_cons in Hd as [->|Hd]; [|exact Hd].
      exfalso. apply Hna. unfold answered.
      destruct (weather_of w password date); [eauto|discriminate].
    + intros [b Hb]. apply Hna. exists b.
      unfold weather_of in *. rewrite Hsvc in Hb. exact Hb.
Qed.

(** X6: [rain_dates] has no partial result: when the service fails for
    one of the dates of the list (or one of them is not a string), the
    call raises and no frame is returned, whatever the other dates. *)
Theorem rain_dates_fails_fast :
  forall (unique_dates : list value) (password : string) (w : World)
         (d : value),
    d ∈ unique_dates ->
    ~ answered w password d ->
    exists e, (rain_dates unique_dates password w).2 = Raise e.
Proof.
  intros unique_dates password w d Hd Hna.
  destruct (rain_loop_fails (set_iter unique_dates) password [] w) as [e He].
  { exists d. split; [apply set_iter_elem_of, Hd|exact Hna]. }
  exists e. unfold rain_dates, bind.
  destruct (rain_loop (set_iter unique_dates) password [] w) as [w1 [data|e']];
    simpl in *; [discriminate|injection He as ->; reflexivity].
Qed.

Lemma rain_dates_fails_fast_witness :
  exists e,
    (rain_dates [VStr "2011-08-05"; VNone; VStr "2011-08-06"] "key"
       world_2011).2 = Raise e.
Proof.
  apply (rain_dates_fails_fast _ "key" world_2011 VNone).
  - right. left.
  - intros [b Hb]. vm_compute in Hb. discriminate Hb.
Defined.

(** ** The joiner and the world *)

Lemma rain_loop_world (dates : list value) (password : string) :
  forall (data : list (list value)) (w : World),
    files (rain_loop dates password data w).1 = files w
    /\ darksky (rain_loop dates password data w).1 = darksky w.
Proof.
  induction dates as [|date dates IH]; intros data w; simpl; [auto|].
  unfold bind.
  pose proof (get_weather_data_world w password date) as (Hf & Hs & _).
  destruct (get_weather_data date password lat_default long_default w)
    as [w1 [dr|e]]; simpl in *; [|auto].
  destruct (IH (data ++ [[dr.1; VBool dr.2]]) w1) as [Hf' Hs'].
  rewrite Hf', Hs'. auto.
Qed.

Lemma rain_dates_world (unique_dates : list value) (password : string)
  (w : World) :
  files (rain_dates unique_dates password w).1 = files w
  /\ darksky (rain_dates unique_dates password w).1 = darksky w
  /\ (length (requests (rain_dates unique_dates password w).1)
      <= length (requests w) + length (set_iter unique_dates))%nat.
Proof.
  unfold rain_dates, bind.
  pose proof (rain_loop_world (set_iter unique_dates) password [] w) as [Hf Hs].
  pose proof (rain_loop_bound (set_iter unique_dates) password [] w) as Hb.
  destruct (rain_loop (set_iter unique_dates) password [] w) as [w1 [data|e]];
    simpl in *; auto.
Qed.

Lemma set_iter_length (l : list value) : (length (set_iter l) <= length l)%nat.
Proof.
  apply submseteq_length, NoDup_submseteq; [apply set_iter_NoDup|].
  intros d Hd. apply set_iter_elem_of, Hd.
Qed.

Lemma slice_to_length_nonneg {A} (N : Z) (l : list A) :
  (0 <= N)%Z -> (length (slice_to N l) <= Z.to_nat N)%nat.
Proof.
  intros HN. rewrite slice_to_nonneg by exact HN. rewrite length_take. lia.
Qed.

Lemma match_rain_data_world (database : string) (season : Z)
  (password : string) (limit : Z) (w : World) :
  darksky (match_rain_data database season password limit w).1 = darksky w
  /\ (forall db, files w !! "database.sqlite" = Some db ->
      files (match_rain_data database season password limit w).1 = files w)
  /\ (length (requests (match_rain_data database season password limit w).1)
      <= length (requests w)
         + length (slice_to limit
                     (unique (match (get_season_data "database.sqlite" season w).2 with
                              | Ok md => match getitem md "Date" with
                                         | Ok dates => dates
                                         | Raise _ => []
                                         end
                              | Raise _ => []
                              end))))%nat.
Proof.
  unfold match_rain_data, bind.
  pose proof (get_season_data_world "database.sqlite" season w) as (Hs & Hr & Hf).
  destruct (get_season_data "database.sqlite" season w) as [w1 [md|e]];
    simpl in *.
  - unfold lift at 1. destruct (getitem md "Date") as [dates|e]; simpl.
    + pose proof (rain_dates_world (slice_to limit (unique dates)) password w1)
        as (Hf2 & Hs2 & Hb2).
      pose proof (set_iter_length (slice_to limit (unique dates))) as Hlen.
      destruct (rain_dates (slice_to limit (unique dates)) password w1)
        as [w2 [rain_days|e]]; simpl in *.
      * rewrite Hr in Hb2.
        unfold lift. destruct (merge md rain_days "Date"); simpl;
          (split; [congruence|]); (split; [|lia]);
          intros db Hdb; rewrite Hf2; eauto.
      * rewrite Hr in Hb2. split; [congruence|]. split; [|lia].
        intros db Hdb. rewrite Hf2. eauto.
    + split; [exact Hs|]. split; [exact Hf|]. rewrite Hr. lia.
  - split; [exact Hs|]. split; [exact Hf|]. rewrite Hr. lia.
Qed.

(** X7: [match_rain_data] only reads the match database: when the file
    [database.sqlite] exists, the call, whether it returns or raises,
    leaves every database file as it was. *)
Theorem match_rain_data_never_writes :
  forall (database : string) (season : Z) (password : string) (limit : Z)
         (w : World) (db : gmap string DataFrame),
    files w !! "database.sqlite" = Some db ->
    files (match_rain_data database season password limit w).1 = files w.
Proof.
  intros database season password limit w db Hdb.
  destruct (match_rain_data_world database season password limit w)
    as (_ & Hf & _).
  apply (Hf db Hdb).
Qed.

Lemma match_rain_data_never_writes_witness :
  files (match_rain_data "other.sqlite" 2011 "key" 2 world_2011).1
  = files world_2011.
Proof.
  apply (match_rain_data_never_writes "other.sqlite" 2011 "key" 2 world_2011
           {[ "Matches" := matches_2011 ]}).
  vm_compute. reflexivity.
Defined.

(** X8: when there is no file [database.sqlite], [match_rain_data]
    creates it as an empty database, raises for the missing table
    [Matches], and sends no weather request. *)
Theorem match_rain_data_missing_database :
  forall (database : string) (season : Z) (password : string) (limit : Z)
         (w : World),
    files w !! "database.sqlite" = None ->
    match_rain_data database season password limit w
    = (mkWorld (<["database.sqlite" := ∅]> (files w)) (darksky w) (requests w),
       Raise (OperationalError "no such table: Matches")).
Proof.
  intros database season password limit w Hdb.
  unfold match_rain_data, bind.
  rewrite (get_season_data_missing _ _ _ Hdb). reflexivity.
Qed.

Lemma match_rain_data_missing_database_witness :
  (match_rain_data "soccer.sqlite" 2011 "key" 2
     (mkWorld {[ "soccer.sqlite" := {[ "Matches" := matches_2011 ]} ]}
              (darksky world_2011) [])).2
  = Raise (OperationalError "no such table: Matches").
Proof.
  rewrite (match_rain_data_missing_database "soccer.sqlite" 2011 "key" 2);
    [reflexivity|].
  vm_compute. reflexivity.
Defined.

(** X9: a limit [N >= 0] caps the weather requests: whatever the
    database holds and whatever the service does, [match_rain_data]
    sends at most [N] requests. *)
Theorem match_rain_data_request_cap :
  forall (database : string) (season : Z) (password : string) (N : Z)
         (w : World),
    (0 <= N)%Z ->
    (length (requests (match_rain_data database season password N w).1)
     <= length (requests w) + Z.to_nat N)%nat.
Proof.
  intros database season password N w HN.
  destruct (match_rain_data_world database season password N w)
    as (_ & _ & Hb).
  etransitivity; [exact Hb|].
  apply Nat.add_le_mono_l, slice_to_length_nonneg, HN.
Qed.

Lemma match_rain_data_request_cap_witness :
  (length (requests (match_rain_data "database.sqlite" 2011 "key" 2
                       world_2011).1) <= 2)%nat.
Proof.
  apply (match_rain_data_request_cap "database.sqlite" 2011 "key" 2 world_2011).
  lia.
Defined.

(** ** The joiner and the limit *)

Lemma set_iter_nil : set_iter [] = [].
Proof. unfold set_iter. simpl. apply elements_empty. Qed.

Lemma match_rain_data_empty_slice (database : string) (season : Z)
  (password : string) (limit : Z) (w w1 : World) (match_data : DataFrame)
  (dates : list value) :
  get_season_data "database.sqlite" season w = (w1, Ok match_data) ->
  getitem match_data "Date" = Ok dates ->
  slice_to limit (unique dates) = [] ->
  match_rain_data database season password limit w
  = (w1, Raise (KeyError "Date")).
Proof.
  intros Hseason Hdates Hslice.
  unfold match_rain_data, bind. rewrite Hseason.
  unfold lift at 1. rewrite Hdates, Hslice.
  unfold rain_dates, bind. rewrite set_iter_nil. simpl.
  unfold lift, merge. simpl.
  destruct (index_of "Date" (columns match_data)); reflexivity.
Qed.

(** X10: with the limit 0 no weather is fetched, the rain table is a
    frame without columns, and the join raises [KeyError] for its key
    [Date]: [match_rain_data] has no result for a limit of 0. *)
Theorem match_rain_data_limit_zero :
  forall (database : string) (season : Z) (password : string) (w w1 : World)
         (match_data : DataFrame) (dates : list value),
    get_season_data "database.sqlite" season w = (w1, Ok match_data) ->
    getitem match_data "Date" = Ok dates ->
    match_rain_data database season password 0 w
    = (w1, Raise (KeyError "Date")).
Proof.
  intros database season password w w1 match_data dates Hseason Hdates.
  eapply match_rain_data_empty_slice; [eassumption|eassumption|].
  reflexivity.
Qed.

Lemma match_rain_data_limit_zero_witness :
  match_rain_data "database.sqlite" 2011 "key" 0 world_2011
  = (world_2011, Raise (KeyError "Date")).
Proof.
  apply (match_rain_data_limit_zero "database.sqlite" 2011 "key" world_2011
           world_2011 matches_2011
           [VStr "2011-08-05"; VStr "2011-08-06"; VStr "2011-08-05";
            VStr "2011-08-07"]); vm_compute; reflexivity.
Defined.

Lemma unique_from_NoDup (l seen : list value) :
  NoDup (unique_from seen l)
  /\ forall d, d ∈ unique_from seen l -> d ∉ seen.
Proof.
  revert seen. induction l as [|x l IH]; intros seen; simpl.
  - split; [constructor|]. intros d Hd. inversion Hd.
  - case_bool_decide as Hx; [apply IH|].
    destruct (IH (x :: seen)) as [Hnd Hns]. split.
    + constructor; [|exact Hnd]. intros Hin. apply (Hns x Hin). left.
    + intros d Hd. apply elem_of_cons in Hd as [->|Hd]; [exact Hx|].
      intros Hin. apply (Hns d Hd). right. exact Hin.
Qed.

Lemma unique_from_elem_of (l seen : list value) (d : value) :
  d ∈ l -> d ∉ seen -> d ∈ unique_from seen l.
Proof.
  revert seen. induction l as [|x l IH]; intros seen Hd Hns; [inversion Hd|].
  simpl. case_bool_decide as Hx.
  - apply elem_of_cons in Hd as [->|Hd]; [contradiction|]. apply IH; assumption.
  - destruct (decide (d = x)) as [->|Hne]; [left|]. right.
    apply elem_of_cons in Hd as [->|Hd]; [contradiction|].
    apply IH; [exact Hd|]. intros Hin.
    apply elem_of_cons in Hin as [->|Hin]; contradiction.
Qed.

Lemma unique_single_date (dates : list value) (d0 : value) :
  (forall d, d ∈ dates -> d = d0) -> (length (unique dates) <= 1)%nat.
Proof.
  intros Hall. unfold unique.
  destruct (unique_from_NoDup dates []) as [Hnd _].
  assert (Hsub : forall d, d ∈ unique_from [] dates -> d = d0).
  { intros d Hd. apply Hall. eapply unique_from_subseteq, Hd. }
  destruct (unique_from [] dates) as [|a [|b l]]; simpl; [lia|lia|].
  exfalso. apply NoDup_cons in Hnd as [Ha _]. apply Ha.
  rewrite (Hsub a) by left. rewrite (Hsub b) by (right; left). left.
Qed.

(** X11: at the default limit a season whose matches all fall on one
    date has no result either: the slice [[:-1]] of its single distinct
    date is empty, no weather is fetched, and the join raises [KeyError]
    for [Date]. *)
Theorem match_rain_data_default_limit_single_date :
  forall (database : string) (season : Z) (password : string) (w w1 : World)
         (match_data : DataFrame) (dates : list value) (d0 : value),
    get_season_data "database.sqlite" season w = (w1, Ok match_data) ->
    getitem match_data "Date" = Ok dates ->
    (forall d, d ∈ dates -> d = d0) ->
    match_rain_data database season password limit_api_calls_default w
    = (w1, Raise (KeyError "Date")).
Proof.
  intros database season password w w1 match_data dates d0 Hseason Hdates Hall.
  eapply match_rain_data_empty_slice; [eassumption|eassumption|].
  rewrite slice_to_default.
  pose proof (unique_single_date dates d0 Hall) as Hlen.
  replace (length (unique dates) - 1)%nat with 0%nat by lia. reflexivity.
Qed.

Lemma match_rain_data_default_limit_single_date_witness :
  match_rain_data "database.sqlite" 2012 "key" limit_api_calls_default world_2012
  = (world_2012, Raise (KeyError "Date")).
Proof.
  apply (match_rain_data_default_limit_single_date "database.sqlite" 2012
           "key" world_2012 world_2012 one_day_2012
           [VStr "2012-08-18"; VStr "2012-08-18"] (VStr "2012-08-18"));
    [vm_compute; reflexivity|vm_compute; reflexivity|].
  intros d Hd. repeat (apply elem_of_cons in Hd as [->|Hd]; [reflexivity|]).
  inversion Hd.
Defined.

(** ** What the joiner returns *)

Lemma flat_map_lookup_key {K A C} `{EqDecision K} (key : A -> K) (mk : K -> A)
  (F : A -> list C) (keys : list K) (t : K) :
  (forall k, key (mk k) = k) ->
  NoDup keys ->
  flat_map (fun a => if bool_decide (t = key a) then F a else []) (map mk keys)
  = if bool_decide (t ∈ keys) then F (mk t) else [].
Proof.
  intros Hkey. induction keys as [|k keys IH]; intros Hnd; simpl; [reflexivity|].
  apply NoDup_cons in Hnd as [Hk Hnd]. rewrite IH by exact Hnd. rewrite Hkey.
  destruct (decide (t = k)) as [->|Hne].
  - rewrite bool_decide_eq_true_2 by reflexivity.
    rewrite (bool_decide_eq_false_2 (k ∈ keys)) by exact Hk.
    rewrite bool_decide_eq_true_2 by left. apply app_nil_r.
  - rewrite bool_decide_eq_false_2 by exact Hne. simpl.
    destruct (decide (t ∈ keys)) as [Hin|Hin].
    + rewrite !bool_decide_eq_true_2; [reflexivity|right; exact Hin|exact Hin].
    + rewrite !bool_decide_eq_false_2; [reflexivity| |exact Hin].
      intros H'. apply elem_of_cons in H' as [H'|H']; contradiction.
Qed.

Lemma frame_of_records_nonempty {A} (mk : A -> list value) (l : list A) :
  l <> [] -> frame_of_records (map mk l) = mkDataFrame ["Date"; "rain"] (map mk l).
Proof. destruct l; [contradiction|reflexivity]. Qed.

Lemma get_season_data_Ok_nonempty (database : string) (season : Z)
  (w w1 : World) (df : DataFrame) :
  get_season_data database season w = (w1, Ok df) -> rows df <> [].
Proof.
  intros H.
  destruct (files w !! database) as [db|] eqn:Hdb;
    [|rewrite (get_season_data_missing _ _ _ Hdb) in H; discriminate].
  rewrite (get_season_data_existing _ _ _ db Hdb) in H.
  injection H as _ H. unfold select_season in H.
  destruct (db !! "Matches") as [t|]; [|discriminate].
  destruct (index_of "Season" (columns t)) as [i|] eqn:Hi; [|discriminate].
  destruct (index_of "Div" (columns t)) as [j|]; [|discriminate].
  simpl in H. unfold frame_of_cursor in H. simpl in H.
  destruct (filter _ (rows t)) as [|r rs].
  - destruct (columns t); [discriminate Hi|discriminate H].
  - injection H as <-. simpl. intros Hx. discriminate Hx.
Qed.

Lemma match_rain_data_joined (database : string) (season : Z)
  (password : string) (limit : Z) (w w1 : World) (match_data : DataFrame)
  (i : nat) :
  get_season_data "database.sqlite" season w = (w1, Ok match_data) ->
  index_of "Date" (columns match_data) = Some i ->
  "rain" ∉ columns match_data ->
  slice_to limit (unique (map (fun r => nth i r VNone) (rows match_data))) <> [] ->
  Forall (answered w1 password)
    (slice_to limit (unique (map (fun r => nth i r VNone) (rows match_data)))) ->
  (match_rain_data database season password limit w).2
  = Ok (mkDataFrame (columns match_data ++ ["rain"])
          (flat_map (fun l =>
             if bool_decide
                  (nth i l VNone
                   ∈ slice_to limit
                       (unique (map (fun r => nth i r VNone) (rows match_data))))
             then [l ++ [VBool (rain_flag w1 password (nth i l VNone))]]
             else []) (rows match_data))).
Proof.
  intros Hseason Hi Hrain Hne Hall.
  set (sl := slice_to limit
               (unique (map (fun r => nth i r VNone) (rows match_data)))) in *.
  unfold match_rain_data, bind. rewrite Hseason.
  unfold lift at 1, getitem. rewrite Hi. fold sl.
  assert (Hset : Forall (answered w1 password) (set_iter sl)).
  { rewrite Forall_forall in Hall. apply Forall_forall. intros d Hd.
    apply Hall, set_iter_elem_of, Hd. }
  assert (Hsetne : set_iter sl <> []).
  { destruct sl as [|d sl'] eqn:Hsl; [contradiction|].
    intros Hnil.
    assert (Hd : d ∈ set_iter (d :: sl')) by (apply set_iter_elem_of; left).
    rewrite Hnil in Hd. inversion Hd. }
  unfold rain_dates, bind.
  rewrite (rain_loop_answered (set_iter sl) password [] w1 Hset).
  cbn [app ret fst snd].
  rewrite (frame_of_records_nonempty
             (fun d => [d; VBool (rain_flag w1 password d)]) _ Hsetne).
  unfold lift, merge. cbn [columns rows snd].
  rewrite Hi. change (index_of "Date" ["Date"; "rain"]) with (Some O).
  cbv iota beta.
  rewrite merge_columns_once by exact Hrain.
  f_equal. f_equal. unfold merge_rows.
  apply flat_map_ext_elem. intros l _.
  rewrite (flat_map_lookup_key (fun r => nth 0 r VNone)
             (fun d => [d; VBool (rain_flag w1 password d)])
             (fun r => [l ++ delete O r]) (set_iter sl) (nth i l VNone)
             (fun _ => eq_refl) (set_iter_NoDup sl)).
  rewrite (bool_decide_ext (nth i l VNone ∈ set_iter sl) (nth i l VNone ∈ sl))
    by apply set_iter_elem_of.
  reflexivity.
Qed.

(** X12: what [match_rain_data] returns when the season has dates within
    the limit and the service answers for them: the match frame with one
    more column, [rain]; it keeps exactly the rows whose [Date] is among
    the dates within the limit, each once, and each kept row ends with
    the rain flag of its own date.  Rows on other dates are dropped. *)
Theorem match_rain_data_inner_join :
  forall (database : string) (season : Z) (password : string) (limit : Z)
         (w w1 : World) (match_data : DataFrame) (i : nat),
    get_season_data "database.sqlite" season w = (w1, Ok match_data) ->
    index_of "Date" (columns match_data) = Some i ->
    "rain" ∉ columns match_data ->
    slice_to limit (unique (map (fun r => nth i r VNone) (rows match_data)))
    <> [] ->
    Forall (answered w1 password)
      (slice_to limit (unique (map (fun r => nth i r VNone) (rows match_data)))) ->
    exists df,
      (match_rain_data database season password limit w).2 = Ok df
      /\ columns df = columns match_data ++ ["rain"]
      /\ rows df
         ≡ₚ flat_map (fun l =>
              if bool_decide
                   (nth i l VNone
                    ∈ slice_to limit
                        (unique (map (fun r => nth i r VNone) (rows match_data))))
              then [l ++ [VBool (rain_flag w1 password (nth i l VNone))]]
              else []) (rows match_data).
Proof.
  intros database season password limit w w1 match_data i
    Hseason Hi Hrain Hne Hall.
  eexists. split; [|split].
  - apply (match_rain_data_joined database season password limit w w1
             match_data i Hseason Hi Hrain Hne Hall).
  - reflexivity.
  - reflexivity.
Qed.

Lemma match_rain_data_inner_join_witness :
  exists df,
    (match_rain_data "database.sqlite" 2011 "key" 1 world_2011).2 = Ok df
    /\ columns df
       = ["Div"; "Season"; "Date"; "HomeTeam"; "AwayTeam"; "FTHG"; "FTAG"; "rain"]
    /\ length (rows df) = 2%nat.
Proof.
  destruct (match_rain_data_inner_join "database.sqlite" 2011 "key" 1
              world_2011 world_2011 matches_2011 2)
    as (df & Hdf & Hcols & Hrows).
  - vm_compute. reflexivity.
  - reflexivity.
  - apply (bool_decide_unpack _). vm_compute. exact I.
  - vm_compute. intros Hx. discriminate Hx.
  - repeat constructor. exists true. vm_compute. reflexivity.
  - exists df. split; [exact Hdf|]. split; [exact Hcols|].
    rewrite Hrows. reflexivity.
Defined.

Lemma flat_map_always {A B} (P : A -> bool) (f : A -> B) (l : list A) :
  (forall a, a ∈ l -> P a = true) ->
  flat_map (fun a => if P a then [f a] else []) l = map f l.
Proof.
  induction l as [|a l IH]; intros H; simpl; [reflexivity|].
  rewrite H by left. simpl. f_equal. apply IH.
  intros b Hb. apply H. right. exact Hb.
Qed.

(** X13: with a limit that is at least the number of distinct match
    dates, and a service that answers for every date, no match is lost:
    [match_rain_data] returns every row of the season, each once, with
    the rain flag of its date in the new last column. *)
Theorem match_rain_data_keeps_every_match :
  forall (database : string) (season : Z) (password : string) (N : Z)
         (w w1 : World) (match_data : DataFrame) (i : nat),
    get_season_data "database.sqlite" season w = (w1, Ok match_data) ->
    index_of "Date" (columns match_data) = Some i ->
    "rain" ∉ columns match_data ->
    (Z.of_nat (length (unique (map (fun r => nth i r VNone) (rows match_data))))
     <= N)%Z ->
    Forall (answered w1 password)
      (map (fun r => nth i r VNone) (rows match_data)) ->
    exists df,
      (match_rain_data database season password N w).2 = Ok df
      /\ columns df = columns match_data ++ ["rain"]
      /\ rows df
         ≡ₚ map (fun l => l ++ [VBool (rain_flag w1 password (nth i l VNone))])
              (rows match_data).
Proof.
  intros database season password N w w1 match_data i
    Hseason Hi Hrain HN Hall.
  exists (mkDataFrame (columns match_data ++ ["rain"])
            (map (fun l => l ++ [VBool (rain_flag w1 password (nth i l VNone))])
                 (rows match_data))).
  split; [|split; reflexivity].
  set (dates := map (fun r => nth i r VNone) (rows match_data)) in *.
  assert (Hslice : slice_to N (unique dates) = unique dates).
  { rewrite slice_to_nonneg by lia. apply take_ge. lia. }
  assert (Hin : forall l, l ∈ rows match_data -> nth i l VNone ∈ unique dates).
  { intros l Hl. apply unique_from_elem_of; [|intros Hx; inversion Hx].
    apply list_elem_of_fmap. exists l. split; [reflexivity|exact Hl]. }
  rewrite (match_rain_data_joined database season password N w w1
             match_data i Hseason Hi Hrain).
  - fold dates. rewrite Hslice. f_equal. f_equal.
    apply (flat_map_always (fun l => bool_decide (nth i l VNone ∈ unique dates))).
    intros l Hl. apply bool_decide_eq_true_2, Hin, Hl.
  - fold dates. rewrite Hslice.
    pose proof (get_season_data_Ok_nonempty _ _ _ _ _ Hseason) as Hne.
    destruct (rows match_data) as [|l ls] eqn:Hrows; [contradiction|].
    intros Hnil. specialize (Hin l ltac:(left)).
    rewrite Hnil in Hin. inversion Hin.
  - fold dates. rewrite Hslice.
    rewrite Forall_forall in Hall. apply Forall_forall. intros d Hd.
    apply Hall. eapply unique_from_subseteq, Hd.
Qed.

Lemma match_rain_data_keeps_every_match_witness :
  exists df,
    (match_rain_data "database.sqlite" 2011 "key" 3 world_2011).2 = Ok df
    /\ length (rows df) = 4%nat.
Proof.
  destruct (match_rain_data_keeps_every_match "database.sqlite" 2011 "key" 3
              world_2011 world_2011 matches_2011 2)
    as (df & Hdf & _ & Hrows).
  - vm_compute. reflexivity.
  - reflexivity.
  - apply (bool_decide_unpack _). vm_compute. exact I.
  - vm_compute. intros Hx. discriminate Hx.
  - repeat constructor; exists true; vm_compute; reflexivity.
  - exists df. split; [exact Hdf|]. rewrite Hrows. reflexivity.
Defined.

(** ** Which teams the in-memory aggregator reports *)

Lemma String_leb_trans (a b c : string) :
  String.leb a b = true -> String.leb b c = true -> String.leb a c = true.
Proof.
  intros Hab Hbc. apply Is_true_true.
  change (String.le a c). transitivity b; apply Is_true_true; assumption.
Qed.

Lemma StronglySorted_filter_keep {A} (R : A -> A -> Prop) (P : A -> Prop)
  `{forall x, Decision (P x)} (l : list A) :
  StronglySorted R l -> StronglySorted R (filter P l).
Proof.
  induction 1 as [|x l Hs IH Hall]; [constructor|].
  rewrite filter_cons. destruct (decide (P x)); [|exact IH].
  constructor; [exact IH|].
  rewrite Forall_forall in Hall. apply Forall_forall. intros y Hy.
  apply list_elem_of_filter in Hy as [_ Hy]. apply Hall, Hy.
Qed.

Lemma group_keys_StronglySorted (key : Match -> string) (ms : list Match) :
  StronglySorted (fun a b => String.leb a b = true) (group_keys key ms).
Proof.
  apply Sorted_StronglySorted.
  - intros a b c. apply String_leb_trans.
  - apply sort_by_Sorted. apply String.leb_total.
Qed.

Lemma pandas_stats_teams (ms : list Match) :
  map Pd.team_name (pandas_stats ms)
  = filter (fun t => t ∈ group_keys AwayTeam ms) (group_keys HomeTeam ms).
Proof.
  rewrite pandas_stats_eq, map_map. simpl. apply map_id.
Qed.

(** X14: the in-memory aggregator reports exactly the teams that have at
    least one home match and at least one away match in the table, each
    once, in ascending order of the team name; a team that only played
    at home, or only away, has no record. *)
Theorem calculate_aggregate_stats_pandas_teams :
  forall (df : DataFrame) (ms : list Match),
    enriched df ms ->
    exists ps,
      calculate_aggregate_stats_pandas df = Ok ps
      /\ NoDup (map Pd.team_name ps)
      /\ Sorted (fun a b => String.leb a b = true) (map Pd.team_name ps)
      /\ forall t, t ∈ map Pd.team_name ps
           <-> (exists h, h ∈ ms /\ HomeTeam h = t)
               /\ (exists a, a ∈ ms /\ AwayTeam a = t).
Proof.
  intros df ms Hdf. exists (pandas_stats ms).
  split; [apply calculate_aggregate_stats_pandas_enriched, Hdf|].
  rewrite pandas_stats_teams. split; [|split].
  - apply NoDup_filter, group_keys_NoDup.
  - apply StronglySorted_Sorted, StronglySorted_filter_keep,
      group_keys_StronglySorted.
  - intros t. rewrite list_elem_of_filter, !group_keys_elem. tauto.
Qed.

Lemma calculate_aggregate_stats_pandas_teams_witness :
  enriched (two_matches 2020 2020 "E0" "E0") two_matches_rows
  /\ exists ps,
       calculate_aggregate_stats_pandas (two_matches 2020 2020 "E0" "E0") = Ok ps
       /\ NoDup (map Pd.team_name ps).
Proof.
  assert (H : enriched (two_matches 2020 2020 "E0" "E0") two_matches_rows)
    by (vm_compute; reflexivity).
  split; [exact H|].
  destruct (calculate_aggregate_stats_pandas_teams _ _ H)
    as (ps & Hps & Hnd & _).
  exists ps. split; assumption.
Defined.

Lemma int64_goals_two_matches_rows : int64_goals two_matches_rows.
Proof. repeat constructor. Qed.

(** X15: in each record of the in-memory aggregator, [wins] is the
    number of rows of the table the team won, at home or away, and
    [goals] is the sum of its goals, [FTHG] over its home rows plus
    [FTAG] over its away rows, in int64 arithmetic: the sum wrapped
    around into the int64 range, which is the sum itself whenever that
    lies in the range; and every team with a home and an away match has
    such a record.  (The goal cells of a frame are int64 values; the
    cells of the model are not bounded, hence the hypothesis.) *)
Theorem calculate_aggregate_stats_pandas_wins_goals :
  forall (df : DataFrame) (ms : list Match),
    enriched df ms ->
    int64_goals ms ->
    exists ps,
      calculate_aggregate_stats_pandas df = Ok ps
      /\ (forall t, (exists h, h ∈ ms /\ HomeTeam h = t) ->
                    (exists a, a ∈ ms /\ AwayTeam a = t) ->
                    exists p, p ∈ ps /\ Pd.team_name p = t)
      /\ forall p, p ∈ ps ->
           Pd.wins p = total_wins (Pd.team_name p) ms
           /\ Pd.goals p = wrap64 (total_goals (Pd.team_name p) ms)
           /\ (in_int64 (total_goals (Pd.team_name p) ms) = true ->
               Pd.goals p = total_goals (Pd.team_name p) ms).
Proof.
  intros df ms Hdf _. exists (pandas_stats ms).
  split; [apply calculate_aggregate_stats_pandas_enriched, Hdf|]. split.
  { intros t Hh Ha. exists (pandas_record ms t).
    split; [apply pandas_stats_cover; assumption|reflexivity]. }
  intros p Hp. apply pandas_stats_elem in Hp as (t & -> & _).
  rewrite pandas_record_wins, pandas_record_goals.
  change (Pd.team_name (pandas_record ms t)) with t.
  split; [reflexivity|]. split; [reflexivity|].
  intros Hin. apply wrap64_in_int64, Hin.
Qed.

Lemma calculate_aggregate_stats_pandas_wins_goals_witness :
  enriched (two_matches 2020 2020 "E0" "E0") two_matches_rows
  /\ int64_goals two_matches_rows
  /\ exists ps,
       calculate_aggregate_stats_pandas (two_matches 2020 2020 "E0" "E0") = Ok ps
       /\ forall p, p ∈ ps ->
            Pd.goals p = wrap64 (total_goals (Pd.team_name p) two_matches_rows).
Proof.
  assert (H : enriched (two_matches 2020 2020 "E0" "E0") two_matches_rows)
    by (vm_compute; reflexivity).
  split; [exact H|]. split; [repeat constructor|].
  destruct (calculate_aggregate_stats_pandas_wins_goals _ _ H
              int64_goals_two_matches_rows) as (ps & Hps & _ & Hall).
  exists ps. split; [exact Hps|]. intros p Hp. apply (Hall p Hp).
Defined.

(** ** Season and division *)

Section MaxOf.
Context {A : Type} (leb : A -> A -> bool).
Hypothesis leb_total : forall x y, leb x y = true \/ leb y x = true.
Hypothesis leb_trans :
  forall x y z, leb x y = true -> leb y z = true -> leb x z = true.

Lemma leb_refl_total (x : A) : leb x x = true.
Proof. destruct (leb_total x x); assumption. Qed.

Lemma foldl_max_spec (l : list A) :
  forall x,
    let m := foldl (fun acc y => if leb acc y then y else acc) x l in
    m ∈ x :: l /\ leb x m = true /\ forall y, y ∈ l -> leb y m = true.
Proof.
  induction l as [|y l IH]; intros x; simpl.
  - split; [left|]. split; [apply leb_refl_total|]. intros y Hy. inversion Hy.
  - destruct (leb x y) eqn:Hxy.
    + destruct (IH y) as (Hin & Hle & Hall). split; [right; exact Hin|].
      split; [eapply leb_trans; eassumption|].
      intros z Hz. apply elem_of_cons in Hz as [->|Hz]; [exact Hle|].
      apply Hall, Hz.
    + destruct (IH x) as (Hin & Hle & Hall). split.
      * apply elem_of_cons in Hin as [->|Hin]; [left|right; right; exact Hin].
      * split; [exact Hle|].
        intros z Hz. apply elem_of_cons in Hz as [->|Hz]; [|apply Hall, Hz].
        destruct (leb_total x y) as [H|H]; [congruence|].
        eapply leb_trans; eassumption.
Qed.

Lemma max_of_spec (l : list A) (m : A) :
  max_of leb l = Some m -> m ∈ l /\ forall y, y ∈ l -> leb y m = true.
Proof.
  destruct l as [|x l]; [discriminate|]. simpl. intros [= <-].
  destruct (foldl_max_spec l x) as (Hin & Hle & Hall).
  split; [exact Hin|].
  intros y Hy. apply elem_of_cons in Hy as [->|Hy]; [exact Hle|apply Hall, Hy].
Qed.
End MaxOf.

Lemma Z_leb_total (x y : Z) : (x <=? y)%Z = true \/ (y <=? x)%Z = true.
Proof. rewrite !Z.leb_le. lia. Qed.

Lemma Z_leb_trans (x y z : Z) :
  (x <=? y)%Z = true -> (y <=? z)%Z = true -> (x <=? z)%Z = true.
Proof. rewrite !Z.leb_le. lia. Qed.

Lemma home_max_of_spec (ms : list Match) (t : string) (h : Match) :
  h ∈ ms -> HomeTeam h = t ->
  (exists h1, h1 ∈ ms /\ HomeTeam h1 = t /\ Season h1 = (home_max_of ms t).1)
  /\ (exists h2, h2 ∈ ms /\ HomeTeam h2 = t /\ Div h2 = (home_max_of ms t).2)
  /\ forall h', h' ∈ ms -> HomeTeam h' = t ->
       (Season h' <= (home_max_of ms t).1)%Z
       /\ String.leb (Div h') (home_max_of ms t).2 = true.
Proof.
  intros Hh Ht.
  destruct (group_nonempty HomeTeam ms t) as (m & g & Hg & _); [eauto|].
  unfold home_max_of. simpl.
  destruct (max_of Z.leb (map Season (group HomeTeam t ms))) as [s|] eqn:Hs;
    [|rewrite Hg in Hs; discriminate].
  destruct (max_of String.leb (map Div (group HomeTeam t ms))) as [d|] eqn:Hd;
    [|rewrite Hg in Hd; discriminate].
  apply (max_of_spec Z.leb Z_leb_total Z_leb_trans) in Hs as [Hsin Hsmax].
  apply (max_of_spec String.leb String.leb_total String_leb_trans) in Hd
    as [Hdin Hdmax].
  simpl. split; [|split].
  - apply list_elem_of_fmap in Hsin as (h1 & -> & Hh1).
    unfold group in Hh1. apply list_elem_of_filter in Hh1 as [H1 H2]. eauto.
  - apply list_elem_of_fmap in Hdin as (h2 & -> & Hh2).
    unfold group in Hh2. apply list_elem_of_filter in Hh2 as [H1 H2]. eauto.
  - intros h' Hh' Ht'.
    assert (Hin : h' ∈ group HomeTeam t ms).
    { unfold group. apply list_elem_of_filter. split; assumption. }
    split.
    + apply Z.leb_le, Hsmax. apply list_elem_of_fmap. eauto.
    + apply Hdmax. apply list_elem_of_fmap. eauto.
Qed.

(** X16: [season] and [division] of a record come from the team's home
    matches only, each column on its own: [season] is the largest
    [Season] among the team's home rows and [division] the largest [Div]
    among them, possibly from different rows; away rows do not count. *)
Theorem calculate_aggregate_stats_pandas_season_division :
  forall (df : DataFrame) (ms : list Match),
    enriched df ms ->
    exists ps,
      calculate_aggregate_stats_pandas df = Ok ps
      /\ forall p, p ∈ ps ->
           (exists h, h ∈ ms /\ HomeTeam h = Pd.team_name p
                      /\ Season h = Pd.season p)
           /\ (exists h, h ∈ ms /\ HomeTeam h = Pd.team_name p
                         /\ Div h = Pd.division p)
           /\ forall h, h ∈ ms -> HomeTeam h = Pd.team_name p ->
                (Season h <= Pd.season p)%Z
                /\ String.leb (Div h) (Pd.division p) = true.
Proof.
  intros df ms Hdf. exists (pandas_stats ms).
  split; [apply calculate_aggregate_stats_pandas_enriched, Hdf|].
  intros p Hp. apply pandas_stats_elem in Hp as (t & -> & (h & Hh & Ht) & _).
  apply (home_max_of_spec ms t h Hh Ht).
Qed.

Lemma calculate_aggregate_stats_pandas_season_division_witness :
  enriched (two_matches 2019 2020 "D1" "E0")
    [mkMatch "D1" 2019 "A" "B" 2 1 true; mkMatch "E0" 2020 "B" "A" 0 3 false]
  /\ exists ps,
       calculate_aggregate_stats_pandas (two_matches 2019 2020 "D1" "E0") = Ok ps
       /\ forall p, p ∈ ps ->
            exists h, h ∈ [mkMatch "D1" 2019 "A" "B" 2 1 true;
                           mkMatch "E0" 2020 "B" "A" 0 3 false]
                      /\ HomeTeam h = Pd.team_name p /\ Season h = Pd.season p.
Proof.
  assert (H : enriched (two_matches 2019 2020 "D1" "E0")
    [mkMatch "D1" 2019 "A" "B" 2 1 true; mkMatch "E0" 2020 "B" "A" 0 3 false])
    by (vm_compute; reflexivity).
  split; [exact H|].
  destruct (calculate_aggregate_stats_pandas_season_division _ _ H)
    as (ps & Hps & Hall).
  exists ps. split; [exact Hps|]. intros p Hp. apply (Hall p Hp).
Defined.

(** ** A table without rain *)

Lemma index_of_None (c : string) (cols : list string) :
  c ∉ cols -> index_of c cols = None.
Proof.
  intros Hc. destruct (index_of c cols) as [i|] eqn:Hi; [|reflexivity].
  exfalso. apply Hc. eapply index_of_Some_elem, Hi.
Qed.

Lemma mapM_Forall_Ok {A B} (P : A -> Prop) (f : A -> result B) (l : list A) :
  (forall x, P x -> exists y, f x = Ok y) ->
  Forall P l -> exists ys, mapM f l = Ok ys.
Proof.
  intros Hf. induction 1 as [|x l Hx _ [ys IH]]; simpl.
  - eauto.
  - destruct (Hf x Hx) as [y ->]. rewrite IH. simpl. eauto.
Qed.

(** X17: given match data that was not joined with rain observations, a
    frame whose goal columns hold integers and which has no [rain]
    column, the in-memory aggregator raises [KeyError] for [rain]. *)
Theorem calculate_aggregate_stats_pandas_without_rain :
  forall (df : DataFrame),
    int_column "FTHG" df ->
    int_column "FTAG" df ->
    "rain" ∉ columns df ->
    calculate_aggregate_stats_pandas df = Raise (KeyError "rain").
Proof.
  intros df (i & Hi & Hhg) (j & Hj & Hag) Hrain.
  unfold calculate_aggregate_stats_pandas, pandas_matches, column_index.
  rewrite Hi, Hj. simpl.
  assert (Hcells : exists zs,
    mapM (fun r => _ <-? as_int (nth i r VNone) ;; as_int (nth j r VNone))
         (rows df) = Ok zs).
  { apply (mapM_Forall_Ok
             (fun r => (exists z, nth i r VNone = VInt z)
                       /\ (exists z, nth j r VNone = VInt z))).
    - intros r [[z ->] [z' ->]]. simpl. eauto.
    - rewrite Forall_forall in Hhg, Hag. apply Forall_forall. intros r Hr.
      split; [apply Hhg, Hr|apply Hag, Hr]. }
  destruct Hcells as [zs ->]. simpl.
  rewrite (index_of_None "rain" _ Hrain). reflexivity.
Qed.

Lemma calculate_aggregate_stats_pandas_without_rain_witness :
  calculate_aggregate_stats_pandas matches_2011 = Raise (KeyError "rain").
Proof.
  apply (calculate_aggregate_stats_pandas_without_rain matches_2011).
  - exists 5%nat. split; [reflexivity|]. repeat constructor; eexists; reflexivity.
  - exists 6%nat. split; [reflexivity|]. repeat constructor; eexists; reflexivity.
  - apply (bool_decide_unpack _). vm_compute. exact I.
Defined.

(** ** The order of the rows does not matter *)

Lemma mapM_Permutation {A B} (f : A -> result B) (l l' : list A) :
  l ≡ₚ l' ->
  forall ys, mapM f l = Ok ys -> exists ys', mapM f l' = Ok ys' /\ ys ≡ₚ ys'.
Proof.
  induction 1 as [|x l l' _ IH|x y l|l l' l'' _ IH1 _ IH2]; intros ys Hys.
  - exists ys. split; [exact Hys|reflexivity].
  - simpl in *. destruct (f x) as [b|]; [|discriminate]. simpl in *.
    destruct (mapM f l) as [bs|]; [|discriminate]. simpl in Hys.
    injection Hys as <-. destruct (IH bs eq_refl) as (bs' & -> & Hp).
    simpl. exists (b :: bs'). split; [reflexivity|]. constructor. exact Hp.
  - simpl in *. destruct (f y) as [b|]; [|discriminate]. simpl in *.
    destruct (f x) as [a|]; [|discriminate]. simpl in *.
    destruct (mapM f l) as [bs|]; [|discriminate]. simpl in *.
    injection Hys as <-. exists (a :: b :: bs). split; [reflexivity|].
    apply perm_swap.
  - destruct (IH1 ys Hys) as (ys' & Hys' & Hp1).
    destruct (IH2 ys' Hys') as (ys'' & Hys'' & Hp2).
    exists ys''. split; [exact Hys''|]. etransitivity; eassumption.
Qed.

Lemma sum_of_Permutation (f : Match -> Z) (ms ms' : list Match) :
  ms ≡ₚ ms' -> sum_of f ms = sum_of f ms'.
Proof.
  unfold sum_of. induction 1; simpl; lia.
Qed.

Lemma max_of_Permutation {A} (leb : A -> A -> bool) (l l' : list A) :
  (forall x y, leb x y = true \/ leb y x = true) ->
  (forall x y z, leb x y = true -> leb y z = true -> leb x z = true) ->
  (forall x y, leb x y = true -> leb y x = true -> x = y) ->
  l ≡ₚ l' -> max_of leb l = max_of leb l'.
Proof.
  intros Htotal Htrans Hanti Hperm.
  destruct (max_of leb l) as [m|] eqn:Hm.
  - destruct (max_of leb l') as [m'|] eqn:Hm'.
    + apply (max_of_spec leb Htotal Htrans) in Hm as [Hin Hmax].
      apply (max_of_spec leb Htotal Htrans) in Hm' as [Hin' Hmax'].
      f_equal. apply Hanti.
      * apply Hmax'. rewrite <- Hperm. exact Hin.
      * apply Hmax. rewrite Hperm. exact Hin'.
    + destruct l' as [|x l']; [|discriminate].
      apply Permutation_nil_r in Hperm. subst l. discriminate.
  - destruct l as [|x l]; [|discriminate].
    apply Permutation_nil_l in Hperm. subst l'. reflexivity.
Qed.

Lemma Z_leb_antisym (x y : Z) :
  (x <=? y)%Z = true -> (y <=? x)%Z = true -> x = y.
Proof. rewrite !Z.leb_le. lia. Qed.

Lemma String_leb_antisym (x y : string) :
  String.leb x y = true -> String.leb y x = true -> x = y.
Proof. intros H1 H2. apply String.leb_antisym; assumption. Qed.

Lemma group_keys_Permutation (key : Match -> string) (ms ms' : list Match) :
  ms ≡ₚ ms' -> group_keys key ms = group_keys key ms'.
Proof.
  intros Hperm.
  assert (Hsorted : forall l,
    Sorted String.le (group_keys key l)).
  { intros l. eapply Sorted_weaken; [|apply (sort_by_Sorted String.leb)].
    - intros a b H. apply Is_true_true. exact H.
    - apply String.leb_total. }
  apply (Sorted_unique String.le); [apply Hsorted ..|].
  apply NoDup_Permutation; [apply group_keys_NoDup ..|].
  intros t. rewrite !group_keys_elem.
  split; intros (m & Hm & Hk); exists m; (split; [|exact Hk]).
  - rewrite <- Hperm. exact Hm.
  - rewrite Hperm. exact Hm.
Qed.

Lemma group_Permutation (key : Match -> string) (t : string)
  (ms ms' : list Match) :
  ms ≡ₚ ms' -> group key t ms ≡ₚ group key t ms'.
Proof. intros H. unfold group. rewrite H. reflexivity. Qed.

Lemma pandas_record_Permutation (ms ms' : list Match) (t : string) :
  ms ≡ₚ ms' -> pandas_record ms t = pandas_record ms' t.
Proof.
  intros H.
  pose proof (group_Permutation HomeTeam t ms ms' H) as Hh.
  pose proof (group_Permutation AwayTeam t ms ms' H) as Ha.
  unfold pandas_record, home_stats_of, away_stats_of, home_max_of, int64_sum.
  rewrite !(sum_of_Permutation _ _ _ Hh), !(sum_of_Permutation _ _ _ Ha).
  rewrite (max_of_Permutation Z.leb _ (map Season (group HomeTeam t ms'))
             Z_leb_total Z_leb_trans Z_leb_antisym)
    by (apply Permutation_map, Hh).
  rewrite (max_of_Permutation String.leb _ (map Div (group HomeTeam t ms'))
             String.leb_total String_leb_trans String_leb_antisym)
    by (apply Permutation_map, Hh).
  reflexivity.
Qed.

Lemma pandas_stats_Permutation (ms ms' : list Match) :
  ms ≡ₚ ms' -> pandas_stats ms = pandas_stats ms'.
Proof.
  intros H. rewrite !pandas_stats_eq.
  rewrite (group_keys_Permutation HomeTeam ms ms' H).
  rewrite (group_keys_Permutation AwayTeam ms ms' H).
  apply map_ext. intros t. apply pandas_record_Permutation, H.
Qed.

(** X18: the in-memory aggregator does not depend on the order of the
    rows: two enriched tables with the same columns and the same rows in
    any order give the same records in the same order. *)
Theorem calculate_aggregate_stats_pandas_row_order :
  forall (df df' : DataFrame) (ms : list Match),
    enriched df ms ->
    columns df' = columns df ->
    rows df' ≡ₚ rows df ->
    calculate_aggregate_stats_pandas df' = calculate_aggregate_stats_pandas df.
Proof.
  intros [cols rs] [cols' rs'] ms Hdf Hcols Hrows. simpl in *. subst cols'.
  rewrite (calculate_aggregate_stats_pandas_enriched _ ms Hdf).
  assert (Hdf' : exists ms', enriched (mkDataFrame cols rs') ms' /\ ms ≡ₚ ms').
  { unfold enriched, to_matches, column_index in *. simpl in *.
    destruct (index_of "FTHG" cols); [|discriminate].
    destruct (index_of "FTAG" cols); [|discriminate].
    destruct (index_of "rain" cols); [|discriminate].
    destruct (index_of "HomeTeam" cols); [|discriminate].
    destruct (index_of "AwayTeam" cols); [|discriminate].
    destruct (index_of "Season" cols); [|discriminate].
    destruct (index_of "Div" cols); [|discriminate].
    simpl in *. symmetry in Hrows.
    apply (mapM_Permutation _ rs rs' Hrows ms Hdf). }
  destruct Hdf' as (ms' & Hdf' & Hperm).
  rewrite (calculate_aggregate_stats_pandas_enriched _ ms' Hdf').
  f_equal. symmetry. apply pandas_stats_Permutation, Hperm.
Qed.

Lemma calculate_aggregate_stats_pandas_row_order_witness :
  calculate_aggregate_stats_pandas
    (mkDataFrame enriched_columns
       (rev (rows (two_matches 2020 2020 "E0" "E0"))))
  = calculate_aggregate_stats_pandas (two_matches 2020 2020 "E0" "E0").
Proof.
  apply (calculate_aggregate_stats_pandas_row_order
           (two_matches 2020 2020 "E0" "E0") _ two_matches_rows).
  - vm_compute. reflexivity.
  - reflexivity.
  - simpl. apply perm_swap.
Defined.

(** ** The query-based aggregator and the database *)




(** ** Which teams the query reports, and with what *)






(** ** The first dates of the season *)

Lemma match_rain_data_requests_first_N_witness :
  requests (match_rain_data "database.sqlite" 2011 "key" 2 world_2011).1
  = requests world_2011
    ++ omap (weather_request "key")
         (set_iter (take 2 [VStr "2011-08-05"; VStr "2011-08-06";
                            VStr "2011-08-07"])).
Proof.
  rewrite (match_rain_data_requests_first_N "database.sqlite" 2011 "key" 2
             world_2011 world_2011 matches_2011
             [VStr "2011-08-05"; VStr "2011-08-06"; VStr "2011-08-05";
              VStr "2011-08-07"]).
  - reflexivity.
  - lia.
  - vm_compute. reflexivity.
  - vm_compute. reflexivity.
  - repeat constructor; exists true; vm_compute; reflexivity.
Defined.
